(** * AFSK1200 modem (bertos/net/afsk.c): shallow embedding and properties

    The C translation unit keeps the whole modem in file-scope variables
    that are touched by two interrupt handlers (ADC and DAC) and by the
    [read]/[write]/[flush] hooks.  Here every fixed-width variable is a [Z]
    whose wrap-around is written out at each store, the file-scope
    variables of the transmitter and of the receiver are gathered in two
    records, and each handler is a function from record to record.  The
    interplay of the DAC handler with [afsk_write] is a list of atomic
    events applied to the transmitter record; [afsk_read], which waits for
    the receive handler and the timer, runs in a world that says what
    arrives when. *)

From Stdlib Require Import ZArith List Bool Lia.
Import ListNotations.
Local Open Scope Z_scope.

(** ** Fixed-width integers *)

Module Int.

Definition u8 (x : Z) : Z := x mod 256.
Definition u16 (x : Z) : Z := x mod 65536.
Definition s8 (x : Z) : Z := (x + 128) mod 256 - 128.
Definition s16 (x : Z) : Z := (x + 32768) mod 65536 - 32768.

Definition b2z (b : bool) : Z := if b then 1 else 0.

End Int.
Import Int.

(** ** Constants of the modem *)

Definition SAMPLERATE : Z := 9600.
Definition BITRATE : Z := 1200.
Definition SAMPLEPERBIT : Z := SAMPLERATE / BITRATE.
Definition PHASE_BIT : Z := 8.
Definition PHASE_INC : Z := 1.
Definition PHASE_MAX : Z := SAMPLEPERBIT * PHASE_BIT.
Definition PHASE_THRES : Z := PHASE_MAX / 2.
Definition MARK_FREQ : Z := 1200.
Definition SPACE_FREQ : Z := 2200.
Definition SIN_LEN : Z := 512.
Definition BIT_STUFF_LEN : Z := 5.

(** Modelled from the spec: the three in-band octets come from headers
    (afsk.h, net/ax25.h) that are not among the sources at hand; the
    interface table gives HDLC_FLAG = 0x7E, HDLC_RESET = 0x7F and
    AX25_ESC = 0x1B. *)
Definition HDLC_FLAG : Z := 0x7E.
Definition HDLC_RESET : Z := 0x7F.
Definition AX25_ESC : Z := 0x1B.

(** Modelled from the spec: the macro DIV_ROUND lives in cfg/macros.h,
    which is not among the sources at hand.  The design text reads every
    use of it as [round(dividend / divisor)]; for the non-negative operands
    of this file that is the quotient of the dividend plus half the
    divisor. *)
Definition DIV_ROUND (dividend divisor : Z) : Z :=
  (dividend + divisor / 2) / divisor.

(** ** Build-time configuration (cfg/cfg_afsk.h) *)

(** The configuration header is not among the sources at hand, so its
    constants are the fields of a record.  Rates and lengths are
    non-negative, which is where the division of C and [Z.div] agree;
    products of configuration constants are taken in unbounded arithmetic,
    and only the stores into the fixed-width variables of afsk.c wrap. *)

Inductive Filter := AFSK_BUTTERWORTH | AFSK_CHEBYSHEV.

Record Config := {
  CONFIG_AFSK_DAC_SAMPLERATE : Z;
  CONFIG_AFSK_FILTER : Filter;
  CONFIG_AFSK_RX_BUFLEN : nat;
  CONFIG_AFSK_TX_BUFLEN : nat;
  CONFIG_AFSK_PREAMBLE_LEN : Z;
  CONFIG_AFSK_TRAILER_LEN : Z;
  CONFIG_AFSK_RXTIMEOUT : Z
}.

Definition MARK_INC (cfg : Config) : Z :=
  u16 (DIV_ROUND (SIN_LEN * MARK_FREQ) (CONFIG_AFSK_DAC_SAMPLERATE cfg)).
Definition SPACE_INC (cfg : Config) : Z :=
  u16 (DIV_ROUND (SIN_LEN * SPACE_FREQ) (CONFIG_AFSK_DAC_SAMPLERATE cfg)).
Definition DAC_SAMPLEPERBIT (cfg : Config) : Z :=
  CONFIG_AFSK_DAC_SAMPLERATE cfg / BITRATE.

(** ** Sine table and DDS lookup *)

Definition sin_table : list Z :=
  [ 128; 129; 131; 132; 134; 135; 137; 138; 140; 142; 143; 145; 146; 148; 149; 151;
    152; 154; 155; 157; 158; 160; 162; 163; 165; 166; 167; 169; 170; 172; 173; 175;
    176; 178; 179; 181; 182; 183; 185; 186; 188; 189; 190; 192; 193; 194; 196; 197;
    198; 200; 201; 202; 203; 205; 206; 207; 208; 210; 211; 212; 213; 214; 215; 217;
    218; 219; 220; 221; 222; 223; 224; 225; 226; 227; 228; 229; 230; 231; 232; 233;
    234; 234; 235; 236; 237; 238; 238; 239; 240; 241; 241; 242; 243; 243; 244; 245;
    245; 246; 246; 247; 248; 248; 249; 249; 250; 250; 250; 251; 251; 252; 252; 252;
    253; 253; 253; 253; 254; 254; 254; 254; 254; 255; 255; 255; 255; 255; 255; 255 ].

(** The index into [sin_table] that [sin_sample] computes from [idx]
    (the local [new_idx], a uint16_t). *)
Definition sin_index (idx : Z) : Z :=
  let new_idx := u16 (idx mod (SIN_LEN / 2)) in
  if new_idx >=? SIN_LEN / 4 then u16 (SIN_LEN / 2 - new_idx - 1) else new_idx.

(** [sin_sample idx]: [None] stands for a violated [ASSERT(idx < SIN_LEN)]
    or a read past the end of the table. *)
Definition sin_sample (idx : Z) : option Z :=
  if idx <? SIN_LEN then
    match nth_error sin_table (Z.to_nat (sin_index idx)) with
    | Some v => Some (if idx >=? SIN_LEN / 2 then u8 (255 - v) else v)
    | None => None
    end
  else None.

(** ** Byte queues (struct/fifobuf.h) *)

(** Modelled from the spec: the FIFO macros are not among the sources at
    hand.  A FIFO is a bounded byte queue whose capacity is fixed when it is
    initialised; [fifo_init] over a buffer of [size] bytes leaves room for
    [size - 1] of them (the comment on [delay_buf] in afsk.c).  Bytes are
    pushed at the tail and popped at the head. *)
Record Fifo := { items : list Z; capacity : nat }.

Definition fifo_init (size : nat) : Fifo :=
  {| items := []; capacity := Nat.pred size |}.

Definition fifo_isempty (f : Fifo) : bool :=
  match items f with [] => true | _ :: _ => false end.

Definition fifo_isfull (f : Fifo) : bool :=
  (capacity f <=? length (items f))%nat.

Definition fifo_push (f : Fifo) (c : Z) : Fifo :=
  {| items := items f ++ [u8 c]; capacity := capacity f |}.

(** The callers in afsk.c pop only from a queue they have just seen
    non-empty; on an empty one the model hands back 0 and leaves it empty. *)
Definition fifo_pop (f : Fifo) : Z * Fifo :=
  (hd 0 (items f), {| items := tl (items f); capacity := capacity f |}).

(** ** Transmitter state *)

(** The file-scope variables of the modulator and of the transmit FSM.
    [dac_irq] is the enable bit of the DAC interrupt, driven by
    AFSK_DAC_IRQ_START and AFSK_DAC_IRQ_STOP. *)
Record Tx := {
  sample_count : Z;
  curr_out : Z;
  tx_bit : Z;
  bit_stuff : bool;
  stuff_cnt : Z;
  phase_acc : Z;
  phase_inc : Z;
  tx_fifo : Fifo;
  preamble_len : Z;
  trailer_len : Z;
  sending : bool;
  dac_irq : bool
}.

Definition set_sample_count (v : Z) (s : Tx) : Tx :=
  {| sample_count := v; curr_out := curr_out s; tx_bit := tx_bit s;
     bit_stuff := bit_stuff s; stuff_cnt := stuff_cnt s;
     phase_acc := phase_acc s; phase_inc := phase_inc s;
     tx_fifo := tx_fifo s; preamble_len := preamble_len s;
     trailer_len := trailer_len s; sending := sending s;
     dac_irq := dac_irq s |}.

Definition set_curr_out (v : Z) (s : Tx) : Tx :=
  {| sample_count := sample_count s; curr_out := v; tx_bit := tx_bit s;
     bit_stuff := bit_stuff s; stuff_cnt := stuff_cnt s;
     phase_acc := phase_acc s; phase_inc := phase_inc s;
     tx_fifo := tx_fifo s; preamble_len := preamble_len s;
     trailer_len := trailer_len s; sending := sending s;
     dac_irq := dac_irq s |}.

Definition set_tx_bit (v : Z) (s : Tx) : Tx :=
  {| sample_count := sample_count s; curr_out := curr_out s; tx_bit := v;
     bit_stuff := bit_stuff s; stuff_cnt := stuff_cnt s;
     phase_acc := phase_acc s; phase_inc := phase_inc s;
     tx_fifo := tx_fifo s; preamble_len := preamble_len s;
     trailer_len := trailer_len s; sending := sending s;
     dac_irq := dac_irq s |}.

Definition set_bit_stuff (v : bool) (s : Tx) : Tx :=
  {| sample_count := sample_count s; curr_out := curr_out s;
     tx_bit := tx_bit s; bit_stuff := v; stuff_cnt := stuff_cnt s;
     phase_acc := phase_acc s; phase_inc := phase_inc s;
     tx_fifo := tx_fifo s; preamble_len := preamble_len s;
     trailer_len := trailer_len s; sending := sending s;
     dac_irq := dac_irq s |}.

Definition set_stuff_cnt (v : Z) (s : Tx) : Tx :=
  {| sample_count := sample_count s; curr_out := curr_out s;
     tx_bit := tx_bit s; bit_stuff := bit_stuff s; stuff_cnt := v;
     phase_acc := phase_acc s; phase_inc := phase_inc s;
     tx_fifo := tx_fifo s; preamble_len := preamble_len s;
     trailer_len := trailer_len s; sending := sending s;
     dac_irq := dac_irq s |}.

Definition set_phase_acc (v : Z) (s : Tx) : Tx :=
  {| sample_count := sample_count s; curr_out := curr_out s;
     tx_bit := tx_bit s; bit_stuff := bit_stuff s; stuff_cnt := stuff_cnt s;
     phase_acc := v; phase_inc := phase_inc s;
     tx_fifo := tx_fifo s; preamble_len := preamble_len s;
     trailer_len := trailer_len s; sending := sending s;
     dac_irq := dac_irq s |}.

Definition set_phase_inc (v : Z) (s : Tx) : Tx :=
  {| sample_count := sample_count s; curr_out := curr_out s;
     tx_bit := tx_bit s; bit_stuff := bit_stuff s; stuff_cnt := stuff_cnt s;
     phase_acc := phase_acc s; phase_inc := v;
     tx_fifo := tx_fifo s; preamble_len := preamble_len s;
     trailer_len := trailer_len s; sending := sending s;
     dac_irq := dac_irq s |}.

Definition set_tx_fifo (v : Fifo) (s : Tx) : Tx :=
  {| sample_count := sample_count s; curr_out := curr_out s;
     tx_bit := tx_bit s; bit_stuff := bit_stuff s; stuff_cnt := stuff_cnt s;
     phase_acc := phase_acc s; phase_inc := phase_inc s;
     tx_fifo := v; preamble_len := preamble_len s;
     trailer_len := trailer_len s; sending := sending s;
     dac_irq := dac_irq s |}.

Definition set_preamble_len (v : Z) (s : Tx) : Tx :=
  {| sample_count := sample_count s; curr_out := curr_out s;
     tx_bit := tx_bit s; bit_stuff := bit_stuff s; stuff_cnt := stuff_cnt s;
     phase_acc := phase_acc s; phase_inc := phase_inc s;
     tx_fifo := tx_fifo s; preamble_len := v;
     trailer_len := trailer_len s; sending := sending s;
     dac_irq := dac_irq s |}.

Definition set_trailer_len (v : Z) (s : Tx) : Tx :=
  {| sample_count := sample_count s; curr_out := curr_out s;
     tx_bit := tx_bit s; bit_stuff := bit_stuff s; stuff_cnt := stuff_cnt s;
     phase_acc := phase_acc s; phase_inc := phase_inc s;
     tx_fifo := tx_fifo s; preamble_len := preamble_len s;
     trailer_len := v; sending := sending s;
     dac_irq := dac_irq s |}.

Definition set_sending (v : bool) (s : Tx) : Tx :=
  {| sample_count := sample_count s; curr_out := curr_out s;
     tx_bit := tx_bit s; bit_stuff := bit_stuff s; stuff_cnt := stuff_cnt s;
     phase_acc := phase_acc s; phase_inc := phase_inc s;
     tx_fifo := tx_fifo s; preamble_len := preamble_len s;
     trailer_len := trailer_len s; sending := v;
     dac_irq := dac_irq s |}.

Definition set_dac_irq (v : bool) (s : Tx) : Tx :=
  {| sample_count := sample_count s; curr_out := curr_out s;
     tx_bit := tx_bit s; bit_stuff := bit_stuff s; stuff_cnt := stuff_cnt s;
     phase_acc := phase_acc s; phase_inc := phase_inc s;
     tx_fifo := tx_fifo s; preamble_len := preamble_len s;
     trailer_len := trailer_len s; sending := sending s;
     dac_irq := v |}.

Definition AFSK_DAC_IRQ_START : Tx -> Tx := set_dac_irq true.
Definition AFSK_DAC_IRQ_STOP : Tx -> Tx := set_dac_irq false.

(** ** Transmit FSM *)

(** [afsk_txStart] in its two steps.  The first is the block under
    [if (!sending)]: a transmission that is not under way is armed.  The DAC
    interrupt is disabled whenever [sending] is false, so nothing can run
    between the test and the end of the block.

    The product and the sum inside DIV_ROUND are those of the integers: C
    computes them in the type of the configured constant, and agrees as
    long as they do not overflow it.  A statement about the value stored
    bounds the configured length accordingly. *)
Definition tx_arm (cfg : Config) (s : Tx) : Tx :=
  if negb (sending s) then
    let s := set_phase_inc (MARK_INC cfg) s in
    let s := set_phase_acc 0 s in
    let s := set_stuff_cnt 0 s in
    let s := set_sending true s in
    let s := set_preamble_len
               (u16 (DIV_ROUND (CONFIG_AFSK_PREAMBLE_LEN cfg * BITRATE) 8000))
               s in
    AFSK_DAC_IRQ_START s
  else s.

(** The second is the refresh of the trailer length, under ATOMIC. *)
Definition tx_trailer (cfg : Config) (s : Tx) : Tx :=
  set_trailer_len
    (u16 (DIV_ROUND (CONFIG_AFSK_TRAILER_LEN cfg * BITRATE) 8000)) s.

Definition afsk_txStart (cfg : Config) (s : Tx) : Tx :=
  tx_trailer cfg (tx_arm cfg s).

Definition SWITCH_TONE (cfg : Config) (inc : Z) : Z :=
  if inc =? MARK_INC cfg then SPACE_INC cfg else MARK_INC cfg.

(** Control flow inside the DAC handler: [Return] is one of its early
    [return]s, [Continue] falls through to the code that follows. *)
Inductive Flow := Return (s : Tx) | Continue (s : Tx).

(** What the handler writes to the DAC in one tick. *)
Inductive DacOut := NoSample | Sample (v : Z).

(** The two places where the handler gives up the line:
    AFSK_DAC_IRQ_STOP, [sending = false], [return]. *)
Definition dac_stop (s : Tx) : Tx :=
  set_sending false (AFSK_DAC_IRQ_STOP s).

(** Choice of the next octet ("Handle preamble and trailer"), after the
    bit-stuff bookkeeping that precedes it. *)
Definition dac_next_byte (s : Tx) : Tx :=
  let s := if negb (bit_stuff s) then set_stuff_cnt 0 s else s in
  let s := set_bit_stuff true s in
  if preamble_len s =? 0 then
    if fifo_isempty (tx_fifo s) then
      let s := set_trailer_len (u16 (trailer_len s - 1)) s in
      set_curr_out HDLC_FLAG s
    else
      let (c, f) := fifo_pop (tx_fifo s) in
      set_curr_out c (set_tx_fifo f s)
  else
    let s := set_preamble_len (u16 (preamble_len s - 1)) s in
    set_curr_out HDLC_FLAG s.

(** "Handle char escape". *)
Definition dac_escape (s : Tx) : Flow :=
  if curr_out s =? AX25_ESC then
    if fifo_isempty (tx_fifo s) then Return (dac_stop s)
    else
      let (c, f) := fifo_pop (tx_fifo s) in
      Continue (set_curr_out c (set_tx_fifo f s))
  else if (curr_out s =? HDLC_FLAG) || (curr_out s =? HDLC_RESET) then
    Continue (set_bit_stuff false s)
  else Continue s.

(** The branch taken when [tx_bit == 0]: fetch a new octet and start with
    the LSB mask, or end the transmission. *)
Definition dac_fetch (s : Tx) : Flow :=
  if fifo_isempty (tx_fifo s) && (trailer_len s =? 0) then Return (dac_stop s)
  else
    match dac_escape (dac_next_byte s) with
    | Return s => Return s
    | Continue s => Continue (set_tx_bit 0x01 s)
    end.

(** "check for bit stuffing" down to "Go to the next bit". *)
Definition dac_bit (cfg : Config) (s : Tx) : Tx :=
  if bit_stuff s && (stuff_cnt s >=? BIT_STUFF_LEN) then
    let s := set_stuff_cnt 0 s in
    set_phase_inc (SWITCH_TONE cfg (phase_inc s)) s
  else
    let s :=
      if negb (Z.land (curr_out s) (tx_bit s) =? 0) then
        set_stuff_cnt (u8 (stuff_cnt s + 1)) s
      else
        let s := set_stuff_cnt 0 s in
        set_phase_inc (SWITCH_TONE cfg (phase_inc s)) s in
    set_tx_bit (u8 (Z.shiftl (tx_bit s) 1)) s.

(** The body of [if (sample_count == 0)]. *)
Definition dac_bit_boundary (cfg : Config) (s : Tx) : Flow :=
  match (if tx_bit s =? 0 then dac_fetch s else Continue s) with
  | Return s => Return s
  | Continue s =>
      Continue (set_sample_count (u8 (DAC_SAMPLEPERBIT cfg)) (dac_bit cfg s))
  end.

(** "Get new sample and put it out on the DAC": [None] when the lookup in
    [sin_sample] fails. *)
Definition dac_dds (s : Tx) : option (Tx * DacOut) :=
  let s := set_phase_acc (u16 (phase_acc s + phase_inc s)) s in
  let s := set_phase_acc (phase_acc s mod SIN_LEN) s in
  match sin_sample (phase_acc s) with
  | Some v => Some (set_sample_count (u8 (sample_count s - 1)) s, Sample v)
  | None => None
  end.

(** One run of the DAC interrupt handler. *)
Definition dac_isr (cfg : Config) (s : Tx) : option (Tx * DacOut) :=
  match (if sample_count s =? 0 then dac_bit_boundary cfg s else Continue s) with
  | Return s => Some (s, NoSample)
  | Continue s => dac_dds s
  end.

(** ** The transmitter and its environment *)

(** The stores of the transmitter as [afsk_init] and the C start-up code
    leave them: everything zero but [phase_inc], and an empty TX queue. *)
Definition tx_init (cfg : Config) : Tx :=
  {| sample_count := 0; curr_out := 0; tx_bit := 0; bit_stuff := false;
     stuff_cnt := 0; phase_acc := 0; phase_inc := MARK_INC cfg;
     tx_fifo := fifo_init (CONFIG_AFSK_TX_BUFLEN cfg);
     preamble_len := 0; trailer_len := 0; sending := false;
     dac_irq := false |}.

(** What can happen to the transmitter, one atomic step at a time: the DAC
    interrupt fires, or [afsk_write] performs one of the three steps it
    makes for an octet: [fifo_push_locked], then the two steps of
    [afsk_txStart].  The DAC handler may run between any two of them. *)
Inductive TxEvent :=
| DacTick
| FifoPush (b : Z)
| TxArm
| TrailerRefresh.

(** [afsk_write] pushes only after it has seen room in the queue: while the
    queue is full the writer spins and the event changes nothing.  The
    handler runs only while its interrupt is enabled. *)
Definition tx_step (cfg : Config) (s : Tx) (e : TxEvent) : Tx :=
  match e with
  | DacTick =>
      if dac_irq s then
        match dac_isr cfg s with
        | Some (s', _) => s'
        | None => s
        end
      else s
  | FifoPush b =>
      if fifo_isfull (tx_fifo s) then s
      else set_tx_fifo (fifo_push (tx_fifo s) b) s
  | TxArm => tx_arm cfg s
  | TrailerRefresh => tx_trailer cfg s
  end.

(** The events of [afsk_write] for one octet, when nothing interrupts
    them. *)
Definition afsk_write_byte (b : Z) : list TxEvent :=
  [FifoPush b; TxArm; TrailerRefresh].

Definition tx_run (cfg : Config) (evs : list TxEvent) (s : Tx) : Tx :=
  fold_left (tx_step cfg) evs s.

(** ** Receiver state *)

(** The file-scope variables of the demodulator and of the HDLC deframer;
    [iir_x0], [iir_x1] stand for [iir_x[0]], [iir_x[1]], and likewise for
    [iir_y]. *)
Record Rx := {
  delay_fifo : Fifo;
  rx_fifo : Fifo;
  iir_x0 : Z;
  iir_x1 : Z;
  iir_y0 : Z;
  iir_y1 : Z;
  sampled_bits : Z;
  found_bits : Z;
  demod_bits : Z;
  curr_phase : Z;
  hdlc_rxstart : bool;
  hdlc_currchar : Z;
  hdlc_bit_idx : Z
}.

Definition set_delay_fifo (v : Fifo) (s : Rx) : Rx :=
  {| delay_fifo := v; rx_fifo := rx_fifo s; iir_x0 := iir_x0 s;
     iir_x1 := iir_x1 s; iir_y0 := iir_y0 s; iir_y1 := iir_y1 s;
     sampled_bits := sampled_bits s; found_bits := found_bits s;
     demod_bits := demod_bits s; curr_phase := curr_phase s;
     hdlc_rxstart := hdlc_rxstart s; hdlc_currchar := hdlc_currchar s;
     hdlc_bit_idx := hdlc_bit_idx s |}.

Definition set_rx_fifo (v : Fifo) (s : Rx) : Rx :=
  {| delay_fifo := delay_fifo s; rx_fifo := v; iir_x0 := iir_x0 s;
     iir_x1 := iir_x1 s; iir_y0 := iir_y0 s; iir_y1 := iir_y1 s;
     sampled_bits := sampled_bits s; found_bits := found_bits s;
     demod_bits := demod_bits s; curr_phase := curr_phase s;
     hdlc_rxstart := hdlc_rxstart s; hdlc_currchar := hdlc_currchar s;
     hdlc_bit_idx := hdlc_bit_idx s |}.

Definition set_iir_x0 (v : Z) (s : Rx) : Rx :=
  {| delay_fifo := delay_fifo s; rx_fifo := rx_fifo s; iir_x0 := v;
     iir_x1 := iir_x1 s; iir_y0 := iir_y0 s; iir_y1 := iir_y1 s;
     sampled_bits := sampled_bits s; found_bits := found_bits s;
     demod_bits := demod_bits s; curr_phase := curr_phase s;
     hdlc_rxstart := hdlc_rxstart s; hdlc_currchar := hdlc_currchar s;
     hdlc_bit_idx := hdlc_bit_idx s |}.

Definition set_iir_x1 (v : Z) (s : Rx) : Rx :=
  {| delay_fifo := delay_fifo s; rx_fifo := rx_fifo s; iir_x0 := iir_x0 s;
     iir_x1 := v; iir_y0 := iir_y0 s; iir_y1 := iir_y1 s;
     sampled_bits := sampled_bits s; found_bits := found_bits s;
     demod_bits := demod_bits s; curr_phase := curr_phase s;
     hdlc_rxstart := hdlc_rxstart s; hdlc_currchar := hdlc_currchar s;
     hdlc_bit_idx := hdlc_bit_idx s |}.

Definition set_iir_y0 (v : Z) (s : Rx) : Rx :=
  {| delay_fifo := delay_fifo s; rx_fifo := rx_fifo s; iir_x0 := iir_x0 s;
     iir_x1 := iir_x1 s; iir_y0 := v; iir_y1 := iir_y1 s;
     sampled_bits := sampled_bits s; found_bits := found_bits s;
     demod_bits := demod_bits s; curr_phase := curr_phase s;
     hdlc_rxstart := hdlc_rxstart s; hdlc_currchar := hdlc_currchar s;
     hdlc_bit_idx := hdlc_bit_idx s |}.

Definition set_iir_y1 (v : Z) (s : Rx) : Rx :=
  {| delay_fifo := delay_fifo s; rx_fifo := rx_fifo s; iir_x0 := iir_x0 s;
     iir_x1 := iir_x1 s; iir_y0 := iir_y0 s; iir_y1 := v;
     sampled_bits := sampled_bits s; found_bits := found_bits s;
     demod_bits := demod_bits s; curr_phase := curr_phase s;
     hdlc_rxstart := hdlc_rxstart s; hdlc_currchar := hdlc_currchar s;
     hdlc_bit_idx := hdlc_bit_idx s |}.

Definition set_sampled_bits (v : Z) (s : Rx) : Rx :=
  {| delay_fifo := delay_fifo s; rx_fifo := rx_fifo s; iir_x0 := iir_x0 s;
     iir_x1 := iir_x1 s; iir_y0 := iir_y0 s; iir_y1 := iir_y1 s;
     sampled_bits := v; found_bits := found_bits s;
     demod_bits := demod_bits s; curr_phase := curr_phase s;
     hdlc_rxstart := hdlc_rxstart s; hdlc_currchar := hdlc_currchar s;
     hdlc_bit_idx := hdlc_bit_idx s |}.

Definition set_found_bits (v : Z) (s : Rx) : Rx :=
  {| delay_fifo := delay_fifo s; rx_fifo := rx_fifo s; iir_x0 := iir_x0 s;
     iir_x1 := iir_x1 s; iir_y0 := iir_y0 s; iir_y1 := iir_y1 s;
     sampled_bits := sampled_bits s; found_bits := v;
     demod_bits := demod_bits s; curr_phase := curr_phase s;
     hdlc_rxstart := hdlc_rxstart s; hdlc_currchar := hdlc_currchar s;
     hdlc_bit_idx := hdlc_bit_idx s |}.

Definition set_demod_bits (v : Z) (s : Rx) : Rx :=
  {| delay_fifo := delay_fifo s; rx_fifo := rx_fifo s; iir_x0 := iir_x0 s;
     iir_x1 := iir_x1 s; iir_y0 := iir_y0 s; iir_y1 := iir_y1 s;
     sampled_bits := sampled_bits s; found_bits := found_bits s;
     demod_bits := v; curr_phase := curr_phase s;
     hdlc_rxstart := hdlc_rxstart s; hdlc_currchar := hdlc_currchar s;
     hdlc_bit_idx := hdlc_bit_idx s |}.

Definition set_curr_phase (v : Z) (s : Rx) : Rx :=
  {| delay_fifo := delay_fifo s; rx_fifo := rx_fifo s; iir_x0 := iir_x0 s;
     iir_x1 := iir_x1 s; iir_y0 := iir_y0 s; iir_y1 := iir_y1 s;
     sampled_bits := sampled_bits s; found_bits := found_bits s;
     demod_bits := demod_bits s; curr_phase := v;
     hdlc_rxstart := hdlc_rxstart s; hdlc_currchar := hdlc_currchar s;
     hdlc_bit_idx := hdlc_bit_idx s |}.

Definition set_hdlc_rxstart (v : bool) (s : Rx) : Rx :=
  {| delay_fifo := delay_fifo s; rx_fifo := rx_fifo s; iir_x0 := iir_x0 s;
     iir_x1 := iir_x1 s; iir_y0 := iir_y0 s; iir_y1 := iir_y1 s;
     sampled_bits := sampled_bits s; found_bits := found_bits s;
     demod_bits := demod_bits s; curr_phase := curr_phase s;
     hdlc_rxstart := v; hdlc_currchar := hdlc_currchar s;
     hdlc_bit_idx := hdlc_bit_idx s |}.

Definition set_hdlc_currchar (v : Z) (s : Rx) : Rx :=
  {| delay_fifo := delay_fifo s; rx_fifo := rx_fifo s; iir_x0 := iir_x0 s;
     iir_x1 := iir_x1 s; iir_y0 := iir_y0 s; iir_y1 := iir_y1 s;
     sampled_bits := sampled_bits s; found_bits := found_bits s;
     demod_bits := demod_bits s; curr_phase := curr_phase s;
     hdlc_rxstart := hdlc_rxstart s; hdlc_currchar := v;
     hdlc_bit_idx := hdlc_bit_idx s |}.

Definition set_hdlc_bit_idx (v : Z) (s : Rx) : Rx :=
  {| delay_fifo := delay_fifo s; rx_fifo := rx_fifo s; iir_x0 := iir_x0 s;
     iir_x1 := iir_x1 s; iir_y0 := iir_y0 s; iir_y1 := iir_y1 s;
     sampled_bits := sampled_bits s; found_bits := found_bits s;
     demod_bits := demod_bits s; curr_phase := curr_phase s;
     hdlc_rxstart := hdlc_rxstart s; hdlc_currchar := hdlc_currchar s;
     hdlc_bit_idx := v |}.

(** ** HDLC deframer *)

Definition BIT_DIFFER (bitline1 bitline2 : Z) : Z :=
  Z.land (Z.lxor bitline1 bitline2) 0x01.
Definition EDGE_FOUND (bitline : Z) : Z :=
  BIT_DIFFER bitline (Z.shiftr bitline 1).

Definition hdlc_parse (bit : bool) (s : Rx) : Rx :=
  let s := set_demod_bits (u8 (Z.shiftl (demod_bits s) 1)) s in
  let s := set_demod_bits (Z.lor (demod_bits s) (if bit then 1 else 0)) s in
  (* HDLC Flag *)
  if demod_bits s =? HDLC_FLAG then
    let s :=
      if negb (fifo_isfull (rx_fifo s)) then
        set_hdlc_rxstart true (set_rx_fifo (fifo_push (rx_fifo s) HDLC_FLAG) s)
      else set_hdlc_rxstart false s in
    set_hdlc_bit_idx 0 (set_hdlc_currchar 0 s)
  (* Reset *)
  else if Z.land (demod_bits s) HDLC_RESET =? HDLC_RESET then
    set_hdlc_rxstart false s
  else if negb (hdlc_rxstart s) then s
  (* Stuffed bit *)
  else if Z.land (demod_bits s) 0x3f =? 0x3e then s
  else
    let s :=
      if negb (Z.land (demod_bits s) 0x01 =? 0) then
        set_hdlc_currchar (u8 (Z.lor (hdlc_currchar s) 0x80)) s
      else s in
    let s := set_hdlc_bit_idx (u8 (hdlc_bit_idx s + 1)) s in
    if hdlc_bit_idx s >=? 8 then
      let s :=
        if (hdlc_currchar s =? HDLC_FLAG)
           || (hdlc_currchar s =? HDLC_RESET)
           || (hdlc_currchar s =? AX25_ESC)
        then
          if negb (fifo_isfull (rx_fifo s)) then
            set_rx_fifo (fifo_push (rx_fifo s) AX25_ESC) s
          else set_hdlc_rxstart false s
        else s in
      let s :=
        if negb (fifo_isfull (rx_fifo s)) then
          set_rx_fifo (fifo_push (rx_fifo s) (hdlc_currchar s)) s
        else set_hdlc_rxstart false s in
      set_hdlc_bit_idx 0 (set_hdlc_currchar 0 s)
    else
      set_hdlc_currchar (Z.shiftr (hdlc_currchar s) 1) s.

(** ** Demodulator (ADC tick) *)

(** The handler is cut where its own comments cut it.  [adc] is the value
    read by AFSK_READ_ADC (an int8_t). *)

(** "Frequency discriminator and LP IIR filter", down to the store of the
    sample in the delay line. *)
Definition adc_filter (cfg : Config) (adc : Z) (s : Rx) : Rx :=
  let curr_sample := s8 adc in
  let s := set_iir_x0 (iir_x1 s) s in
  let (d, f) := fifo_pop (delay_fifo s) in
  let s := set_delay_fifo f s in
  let s := set_iir_x1 (s16 (Z.shiftr (s8 d * curr_sample) 2)) s in
  let s := set_iir_y0 (iir_y1 s) s in
  let s :=
    match CONFIG_AFSK_FILTER cfg with
    | AFSK_BUTTERWORTH =>
        set_iir_y1 (s16 (iir_x0 s + iir_x1 s + Z.shiftr (iir_y0 s) 1
                         + Z.shiftr (iir_y0 s) 3 + Z.shiftr (iir_y0 s) 5)) s
    | AFSK_CHEBYSHEV =>
        set_iir_y1 (s16 (iir_x0 s + iir_x1 s + Z.shiftr (iir_y0 s) 1)) s
    end in
  (* Save this sampled bit in a delay line *)
  let s := set_sampled_bits (u8 (Z.shiftl (sampled_bits s) 1)) s in
  let s := set_sampled_bits
             (Z.lor (sampled_bits s) (if iir_y1 s >? 0 then 1 else 0)) s in
  (* Store current ADC sample in the delay_fifo *)
  set_delay_fifo (fifo_push (delay_fifo s) curr_sample) s.

(** "If there is an edge, adjust phase sampling", and the advance of the
    phase by PHASE_BIT. *)
Definition adc_sync (s : Rx) : Rx :=
  let s :=
    if negb (EDGE_FOUND (sampled_bits s) =? 0) then
      if curr_phase s <? PHASE_THRES then
        set_curr_phase (s8 (curr_phase s + PHASE_INC)) s
      else
        set_curr_phase (s8 (curr_phase s - PHASE_INC)) s
    else s in
  set_curr_phase (s8 (curr_phase s + PHASE_BIT)) s.

(** "sample the bit".  The second component is the argument of the call of
    [hdlc_parse], if the handler makes one in this tick. *)
Definition adc_sample (s : Rx) : Rx * option bool :=
  if curr_phase s >=? PHASE_MAX then
    let s := set_curr_phase (s8 (Z.rem (curr_phase s) PHASE_MAX)) s in
    (* Shift 1 position in the shift register of the found bits *)
    let s := set_found_bits (u8 (Z.shiftl (found_bits s) 1)) s in
    let bits := Z.land (sampled_bits s) 0x07 in
    let s :=
      if (bits =? 0x07) || (bits =? 0x06) || (bits =? 0x05) || (bits =? 0x03)
      then set_found_bits (Z.lor (found_bits s) 1) s
      else s in
    (s, Some (EDGE_FOUND (found_bits s) =? 0))
  else (s, None).

(** Everything the ADC handler does before it hands a bit to
    [hdlc_parse]. *)
Definition adc_demod (cfg : Config) (adc : Z) (s : Rx) : Rx * option bool :=
  adc_sample (adc_sync (adc_filter cfg adc s)).

(** One run of the ADC interrupt handler. *)
Definition adc_isr (cfg : Config) (s : Rx) (adc : Z) : Rx :=
  match adc_demod cfg adc s with
  | (s, Some bit) => hdlc_parse bit s
  | (s, None) => s
  end.

(** The stores of the receiver after [afsk_init]: all zero, an empty RX
    queue, and a delay line pre-loaded with SAMPLEPERBIT / 2 zeros. *)
Definition rx_init (cfg : Config) : Rx :=
  {| delay_fifo :=
       fold_left (fun f _ => fifo_push f 0)
         (seq 0 (Z.to_nat (SAMPLEPERBIT / 2)))
         (fifo_init (Z.to_nat (SAMPLEPERBIT / 2 + 1)));
     rx_fifo := fifo_init (CONFIG_AFSK_RX_BUFLEN cfg);
     iir_x0 := 0; iir_x1 := 0; iir_y0 := 0; iir_y1 := 0;
     sampled_bits := 0; found_bits := 0; demod_bits := 0; curr_phase := 0;
     hdlc_rxstart := false; hdlc_currchar := 0; hdlc_bit_idx := 0 |}.

Definition rx_run (cfg : Config) (samples : list Z) (s : Rx) : Rx :=
  fold_left (adc_isr cfg) samples s.

(** ** Byte endpoint: [afsk_read] *)

(** What the reader can observe of the rest of the system: the RX queue,
    the system timer, and what the future holds.  [w_future n] is the [n]-th
    slice of time to come: by how many ticks the timer advances in it, and
    the octet the receive interrupt pushes in it, if any. *)
Record World := {
  w_rx : Fifo;
  w_clock : Z;
  w_now : nat;
  w_future : nat -> Z * option Z
}.

(** One slice of time passes. *)
Definition world_tick (w : World) : World :=
  let (dt, arrival) := w_future w (w_now w) in
  {| w_rx := match arrival with
             | Some c =>
                 if fifo_isfull (w_rx w) then w_rx w else fifo_push (w_rx w) c
             | None => w_rx w
             end;
     w_clock := w_clock w + dt;
     w_now := S (w_now w);
     w_future := w_future w |}.

Definition set_w_rx (f : Fifo) (w : World) : World :=
  {| w_rx := f; w_clock := w_clock w; w_now := w_now w;
     w_future := w_future w |}.

Definition cpu_relax : World -> World := world_tick.
Definition timer_clock : World -> Z := w_clock.

(** Modelled from the spec: drv/timer.h is not among the sources at hand;
    the timeout is configured in milliseconds and the model's timer counts
    milliseconds. *)
Definition ms_to_ticks (ms : Z) : Z := ms.

(** The statement [while (fifo_isempty_locked(&rx_fifo));] of [afsk_read]:
    a loop with an empty body.  One slice of time passes per turn; [None]
    when [fuel] turns were not enough to leave it. *)
Fixpoint wait_nonempty (fuel : nat) (w : World) : option World :=
  match fuel with
  | O => None
  | S fuel =>
      if fifo_isempty (w_rx w) then wait_nonempty fuel (world_tick w)
      else Some w
  end.

(** [afsk_read cfg fuel size buf w]: [buf] is what has been stored through
    the pointer so far, so the value returned by the C function is the
    length of the buffer in the result.  [None]: some wait was still
    spinning after [fuel] turns. *)
Fixpoint afsk_read (cfg : Config) (fuel size : nat) (buf : list Z) (w : World)
  : option (list Z * World) :=
  match size with
  | O => Some (buf, w)
  | S size =>
      if (CONFIG_AFSK_RXTIMEOUT cfg =? 0) && fifo_isempty (w_rx w)
      then Some (buf, w)
      else
        let start := timer_clock w in
        match wait_nonempty fuel w with
        | None => None
        | Some w =>
            (* the block after the loop runs once *)
            let w := cpu_relax w in
            if negb (CONFIG_AFSK_RXTIMEOUT cfg =? -1)
               && (timer_clock w - start >? ms_to_ticks (CONFIG_AFSK_RXTIMEOUT cfg))
            then Some (buf, w)
            else
              let (c, f) := fifo_pop (w_rx w) in
              afsk_read cfg fuel size (buf ++ [c]) (set_w_rx f w)
        end
  end.

(** ** Invariants and observations used in the statements *)

(** What holds of the transmitter between any two events: with [sending]
    clear the bit-level state rests at a byte boundary, the DAC interrupt
    is enabled only while sending, and the phase accumulator stays inside
    the wave. *)
Definition tx_inv (s : Tx) : Prop :=
  (sending s = false -> tx_bit s = 0 /\ sample_count s = 0) /\
  (dac_irq s = true -> sending s = true) /\
  0 <= phase_acc s < SIN_LEN.

Definition rx_inv (s : Rx) : Prop := 0 <= curr_phase s < PHASE_MAX.

(** Majority of three bits: at least two of them are set. *)
Definition majority3 (b2 b1 b0 : bool) : bool :=
  (b2 && b1) || (b2 && b0) || (b1 && b0).

(** The octets that the deframer escapes. *)
Definition hdlc_special (c : Z) : Prop :=
  c = HDLC_FLAG \/ c = HDLC_RESET \/ c = AX25_ESC.

(** ** Counting the preamble *)

(** The tick that starts in [s] reaches "Handle preamble and trailer". *)
Definition dac_fetches (s : Tx) : bool :=
  (sample_count s =? 0) && (tx_bit s =? 0)
  && negb (fifo_isempty (tx_fifo s) && (trailer_len s =? 0)).

(** ... and there takes the preamble branch: [curr_out = HDLC_FLAG],
    [preamble_len--]. *)
Definition in_preamble_branch (s : Tx) : bool :=
  dac_fetches s && negb (preamble_len s =? 0).

(** ... or pops an octet of payload from the TX queue. *)
Definition pops_payload (s : Tx) : bool :=
  dac_fetches s && (preamble_len s =? 0) && negb (fifo_isempty (tx_fifo s)).

(** Number of DAC ticks, among the events [evs] applied from [s], in which
    the handler sets [curr_out] to HDLC_FLAG through the preamble branch:
    the ticks that take that branch and leave HDLC_FLAG in [curr_out]. *)
Fixpoint preamble_flags (cfg : Config) (evs : list TxEvent) (s : Tx) : nat :=
  match evs with
  | [] => O
  | e :: evs =>
      ((match e with
        | DacTick =>
            if dac_irq s && in_preamble_branch s
               && Z.eqb (curr_out (tx_step cfg s DacTick)) HDLC_FLAG
            then 1 else 0
        | _ => 0
        end) + preamble_flags cfg evs (tx_step cfg s e))%nat
  end.

(** Whether some DAC tick among [evs] fetches an octet of payload. *)
Fixpoint payload_fetched (cfg : Config) (evs : list TxEvent) (s : Tx) : bool :=
  match evs with
  | [] => false
  | e :: evs =>
      (match e with
       | DacTick => dac_irq s && pops_payload s
       | _ => false
       end) || payload_fetched cfg evs (tx_step cfg s e)
  end.

(** ** Well-formed transmitter states *)

(** [tx_bit] is zero or a mask with a single bit set. *)
Definition is_mask (m : Z) : Prop :=
  m = 0 \/ m = 1 \/ m = 2 \/ m = 4 \/ m = 8 \/ m = 16 \/ m = 32 \/ m = 64
  \/ m = 128.

(** Number of bits of the current octet already sent: the position of the
    bit set in the mask, and 8 once the mask has been shifted out. *)
Definition mask_index (m : Z) : Z := if m =? 0 then 8 else Z.log2 m.

(** What holds of the bit-level state of the transmitter between any two
    events: the tone is one of the two tones, [tx_bit] is a mask, the run
    of ones is at most five under bit stuffing, and without it grows by at
    most one per bit of the current octet. *)
Definition tx_wf (cfg : Config) (s : Tx) : Prop :=
  (phase_inc s = MARK_INC cfg \/ phase_inc s = SPACE_INC cfg) /\
  is_mask (tx_bit s) /\
  0 <= stuff_cnt s <= BIT_STUFF_LEN + mask_index (tx_bit s) /\
  (bit_stuff s = true -> stuff_cnt s <= BIT_STUFF_LEN).

(** ** Timing of the preamble *)

(** DAC ticks per bit: the 8-bit [sample_count] is reloaded with
    DAC_SAMPLEPERBIT and counted down to zero; reloaded with 0 it wraps and
    counts 256 ticks. *)
Definition bit_ticks (cfg : Config) : Z :=
  if u8 (DAC_SAMPLEPERBIT cfg) =? 0 then 256 else u8 (DAC_SAMPLEPERBIT cfg).

(** DAC ticks left before the handler fetches the first octet of payload,
    for a transmitter that is sending its preamble: the rest of the
    current bit, the remaining bits of the current flag, and the flags
    still to come. *)
Definition ticks_to_payload (cfg : Config) (s : Tx) : Z :=
  sample_count s
  + bit_ticks cfg * (8 - mask_index (tx_bit s))
  + 8 * bit_ticks cfg * preamble_len s.

(** A transmitter in its preamble, with payload waiting in the queue. *)
Definition in_preamble (s : Tx) : Prop :=
  dac_irq s = true /\ sending s = true /\
  fifo_isempty (tx_fifo s) = false /\
  0 <= preamble_len s < 65536 /\
  0 <= sample_count s < 256 /\
  is_mask (tx_bit s) /\
  (tx_bit s <> 0 -> bit_stuff s = false).

(** ** Configurations and states used as instances *)

(** A configuration with one flag of preamble and one of trailer (7 ms
    each), for short runs. *)
Definition cfg_short : Config :=
  {| CONFIG_AFSK_DAC_SAMPLERATE := 9600;
     CONFIG_AFSK_FILTER := AFSK_BUTTERWORTH;
     CONFIG_AFSK_RX_BUFLEN := 8;
     CONFIG_AFSK_TX_BUFLEN := 8;
     CONFIG_AFSK_PREAMBLE_LEN := 7;
     CONFIG_AFSK_TRAILER_LEN := 7;
     CONFIG_AFSK_RXTIMEOUT := 100 |}.

(** No preamble and no trailer: the first octet fetched is the first octet
    written. *)
Definition cfg_bare : Config :=
  {| CONFIG_AFSK_DAC_SAMPLERATE := 9600;
     CONFIG_AFSK_FILTER := AFSK_BUTTERWORTH;
     CONFIG_AFSK_RX_BUFLEN := 8;
     CONFIG_AFSK_TX_BUFLEN := 8;
     CONFIG_AFSK_PREAMBLE_LEN := 0;
     CONFIG_AFSK_TRAILER_LEN := 0;
     CONFIG_AFSK_RXTIMEOUT := 100 |}.

(** A configuration with 5 ms of preamble. *)
Definition cfg_5ms : Config :=
  {| CONFIG_AFSK_DAC_SAMPLERATE := 9600;
     CONFIG_AFSK_FILTER := AFSK_BUTTERWORTH;
     CONFIG_AFSK_RX_BUFLEN := 8;
     CONFIG_AFSK_TX_BUFLEN := 8;
     CONFIG_AFSK_PREAMBLE_LEN := 5;
     CONFIG_AFSK_TRAILER_LEN := 5;
     CONFIG_AFSK_RXTIMEOUT := 100 |}.

(** A line on which nothing is ever received while the timer runs. *)
Definition silent_world : World :=
  {| w_rx := fifo_init 32; w_clock := 0; w_now := O;
     w_future := fun _ => (1, None) |}.

(** A line on which the octet 0x41 arrives in the slice of time [n], the
    timer advancing by one tick per slice. *)
Definition world_with_arrival (n : nat) : World :=
  {| w_rx := fifo_init 32; w_clock := 0; w_now := O;
     w_future := fun k => (1, if Nat.eqb k n then Some 0x41 else None) |}.

(** One octet written to an idle modem, then the DAC ticks of the whole
    transmission (flag, octet, flag: 3 * 8 * 8 samples) and the tick that
    ends it. *)
Definition short_frame_events : list TxEvent :=
  afsk_write_byte 0x41 ++ repeat DacTick 193.

(** The transmitter right after [afsk_write] was given the single octet
    AX25_ESC. *)
Definition tx_lone_escape : Tx :=
  tx_run cfg_bare (afsk_write_byte AX25_ESC) (tx_init cfg_bare).

(** The transmitter in the middle of the octet 0xFF, at the bit boundary
    that follows its fifth one. *)
Definition tx_five_ones : Tx :=
  tx_run cfg_bare (afsk_write_byte 0xFF ++ repeat DacTick 40)
    (tx_init cfg_bare).

(** The deframer after a flag and the first seven bits of the octet 0x1B
    (least significant bit first). *)
Definition rx_seven_bits : Rx :=
  fold_left (fun s b => hdlc_parse b s)
    [false; true; true; true; true; true; true; false;
     true; true; false; true; true; false; false]
    (rx_init cfg_short).

(** The receiver after seven silent samples: the eighth completes the
    first bit period. *)
Definition rx_seven_samples : Rx :=
  rx_run cfg_short (repeat 0 7) (rx_init cfg_short).

(** An idle transmitter into whose queue [afsk_write] has just pushed one
    octet, before it calls [afsk_txStart]. *)
Definition tx_one_octet_queued (cfg : Config) : Tx :=
  set_tx_fifo (fifo_push (tx_fifo (tx_init cfg)) 0x41) (tx_init cfg).

(** * Further definitions *)

(** ** Queues within their bounds *)

(** A queue that holds no more than its capacity. *)
Definition fifo_ok (f : Fifo) : Prop :=
  (length (items f) <= capacity f)%nat.

(** ** The deframer on a stream of bits *)

Definition hdlc_run (bits : list bool) (s : Rx) : Rx :=
  fold_left (fun s b => hdlc_parse b s) bits s.

(** [demod_bits] after one more bit: the register shifted left within its
    8 bits, the new bit in bit 0. *)
Definition demod_shift (d : Z) (bit : bool) : Z :=
  Z.lor (u8 (Z.shiftl d 1)) (if bit then 1 else 0).



(** ** The bit clock of the receiver *)

(** Number of bits that the ADC handler hands to [hdlc_parse] while it
    takes the samples [samples]. *)
Fixpoint bits_delivered (cfg : Config) (samples : list Z) (s : Rx) : nat :=
  match samples with
  | [] => O
  | a :: l =>
      ((match snd (adc_demod cfg a s) with Some _ => 1 | None => 0 end)
       + bits_delivered cfg l (adc_isr cfg s a))%nat
  end.

(** The arithmetic of [adc_sync] and [adc_sample] on [curr_phase] alone,
    for a phase below PHASE_MAX, where no store wraps: the new phase, and
    whether a bit is sampled.  [edge] is the outcome of EDGE_FOUND. *)
Definition pll_step (edge : bool) (p : Z) : Z * bool :=
  let p := if edge
           then if p <? PHASE_THRES then p + PHASE_INC else p - PHASE_INC
           else p in
  let p := p + PHASE_BIT in
  if p >=? PHASE_MAX then (Z.rem p PHASE_MAX, true) else (p, false).

Fixpoint pll_count (edges : list bool) (p : Z) : nat :=
  match edges with
  | [] => O
  | e :: r =>
      ((if snd (pll_step e p) then 1 else 0)
       + pll_count r (fst (pll_step e p)))%nat
  end.

(** All the lists of [n] booleans. *)
Fixpoint all_edges (n : nat) : list (list bool) :=
  match n with
  | O => [[]]
  | S n => map (cons true) (all_edges n) ++ map (cons false) (all_edges n)
  end.

(** ** Configurations of the read endpoint *)

Definition cfg_nonblocking : Config :=
  {| CONFIG_AFSK_DAC_SAMPLERATE := 9600;
     CONFIG_AFSK_FILTER := AFSK_BUTTERWORTH;
     CONFIG_AFSK_RX_BUFLEN := 8;
     CONFIG_AFSK_TX_BUFLEN := 8;
     CONFIG_AFSK_PREAMBLE_LEN := 7;
     CONFIG_AFSK_TRAILER_LEN := 7;
     CONFIG_AFSK_RXTIMEOUT := 0 |}.

Definition cfg_blocking : Config :=
  {| CONFIG_AFSK_DAC_SAMPLERATE := 9600;
     CONFIG_AFSK_FILTER := AFSK_BUTTERWORTH;
     CONFIG_AFSK_RX_BUFLEN := 8;
     CONFIG_AFSK_TX_BUFLEN := 8;
     CONFIG_AFSK_PREAMBLE_LEN := 7;
     CONFIG_AFSK_TRAILER_LEN := 7;
     CONFIG_AFSK_RXTIMEOUT := -1 |}.

(** ** The transmitter left to the DAC interrupt *)

(** What holds of the counters of the transmitter between any two events:
    the DAC interrupt is enabled exactly while [sending] is set, and the
    counters are within the range of their types. *)
Definition tx_ok (s : Tx) : Prop :=
  dac_irq s = sending s /\
  0 <= sample_count s < 256 /\
  0 <= preamble_len s < 65536 /\
  0 <= trailer_len s < 65536.

(** Bit periods that the rest of the current octet takes at most: one per
    bit still to send and, under bit stuffing, one more for every fifth one
    in a row. *)
Definition bits_to_go (s : Tx) : Z :=
  let left := 8 - mask_index (tx_bit s) in
  if tx_bit s =? 0 then 0
  else left + (if bit_stuff s
               then (stuff_cnt s + left - 1) / BIT_STUFF_LEN
               else 0).

(** Octets that the handler has still to fetch: the flags of the preamble,
    the queue, the flags of the trailer. *)
Definition octets_to_go (s : Tx) : Z :=
  preamble_len s + Z.of_nat (length (items (tx_fifo s))) + trailer_len s.

(** A bound on the DAC ticks before the handler stops the transmission: the
    rest of the current bit, the rest of the current octet, and ten bit
    periods for every octet to come. *)
Definition ticks_to_idle (cfg : Config) (s : Tx) : Z :=
  sample_count s
  + bit_ticks cfg * bits_to_go s
  + 10 * bit_ticks cfg * octets_to_go s.

(** What [afsk_txStart] loads into [preamble_len] and [trailer_len]. *)
Definition preamble_load (cfg : Config) : Z :=
  u16 (DIV_ROUND (CONFIG_AFSK_PREAMBLE_LEN cfg * BITRATE) 8000).

Definition trailer_load (cfg : Config) : Z :=
  u16 (DIV_ROUND (CONFIG_AFSK_TRAILER_LEN cfg * BITRATE) 8000).

(** What holds of the transmitter between any two events, all together:
    the counters in range, the bit-level state well formed, the queue
    within its capacity, and no more flags to send than [afsk_txStart]
    asks for. *)
Definition tx_sane (cfg : Config) (s : Tx) : Prop :=
  tx_ok s /\ tx_wf cfg s /\ fifo_ok (tx_fifo s) /\
  preamble_len s <= preamble_load cfg /\
  trailer_len s <= trailer_load cfg.


(** ** Byte endpoint: [afsk_flush] and [afsk_write] *)





(** * Properties *)

(** ** Tactics *)

(** Case analysis on the condition of some conditional of the goal or of a
    hypothesis. *)
Ltac break_if :=
  match goal with
  | |- context [if ?c then _ else _] => destruct c eqn:?
  | H : context [if ?c then _ else _] |- _ => destruct c eqn:?
  end.

(** Projections of explicit updates, and nothing else. *)
Ltac rx_simpl :=
  cbn [delay_fifo rx_fifo iir_x0 iir_x1 iir_y0 iir_y1 sampled_bits found_bits
       demod_bits curr_phase hdlc_rxstart hdlc_currchar hdlc_bit_idx
       set_delay_fifo set_rx_fifo set_iir_x0 set_iir_x1 set_iir_y0 set_iir_y1
       set_sampled_bits set_found_bits set_demod_bits set_curr_phase
       set_hdlc_rxstart set_hdlc_currchar set_hdlc_bit_idx
       negb fst snd] in *.

(** ** Fixed-width arithmetic *)

Lemma u8_range x : 0 <= u8 x < 256.
Proof. unfold u8. apply Z.mod_pos_bound. lia. Qed.

Lemma u16_range x : 0 <= u16 x < 65536.
Proof. unfold u16. apply Z.mod_pos_bound. lia. Qed.

Lemma s8_range x : -128 <= s8 x < 128.
Proof. unfold s8. pose proof (Z.mod_pos_bound (x + 128) 256). lia. Qed.

Lemma u8_small x : 0 <= x < 256 -> u8 x = x.
Proof. intros H. unfold u8. now apply Z.mod_small. Qed.

Lemma u16_small x : 0 <= x < 65536 -> u16 x = x.
Proof. intros H. unfold u16. now apply Z.mod_small. Qed.

Lemma s8_small x : -128 <= x < 128 -> s8 x = x.
Proof. intros H. unfold s8. rewrite Z.mod_small; lia. Qed.

(** A boolean property checked on every number below [n] holds below [n]. *)
Lemma forallb_below (P : Z -> bool) (n : nat) :
  forallb P (map Z.of_nat (seq 0 n)) = true ->
  forall x, 0 <= x < Z.of_nat n -> P x = true.
Proof.
  intros Hall x Hx.
  rewrite forallb_forall in Hall. apply Hall.
  apply in_map_iff. exists (Z.to_nat x). split.
  - lia.
  - apply in_seq. lia.
Qed.

(** ** Sine table *)

Lemma sin_table_length : length sin_table = 128%nat.
Proof. reflexivity. Qed.

Lemma sin_index_range idx : 0 <= sin_index idx < SIN_LEN / 4.
Proof.
  unfold sin_index, u16, SIN_LEN.
  change (512 / 2) with 256. change (512 / 4) with 128.
  pose proof (Z.mod_pos_bound idx 256 ltac:(lia)) as Hm.
  rewrite (Z.mod_small (idx mod 256) 65536) by lia.
  destruct (idx mod 256 >=? 128) eqn:E.
  - rewrite Z.mod_small; lia.
  - lia.
Qed.

Lemma sin_table_lookup i :
  0 <= i < SIN_LEN / 4 ->
  exists v, nth_error sin_table (Z.to_nat i) = Some v /\ 128 <= v <= 255.
Proof.
  intros Hi.
  pose (P := fun i => match nth_error sin_table (Z.to_nat i) with
                      | Some v => (128 <=? v) && (v <=? 255)
                      | None => false
                      end).
  assert (Hall : forallb P (map Z.of_nat (seq 0 128)) = true)
    by (vm_compute; reflexivity).
  pose proof (forallb_below P 128 Hall i Hi) as H. subst P.
  cbv beta in H.
  destruct (nth_error sin_table (Z.to_nat i)) as [v|]; [|discriminate].
  exists v. split; [reflexivity | lia].
Qed.

(** Below [SIN_LEN] the lookup always succeeds and yields an octet. *)
Lemma sin_sample_defined idx :
  0 <= idx < SIN_LEN -> exists v, sin_sample idx = Some v /\ 0 <= v <= 255.
Proof.
  intros Hidx. unfold sin_sample.
  destruct (idx <? SIN_LEN) eqn:E; [|lia].
  destruct (sin_table_lookup (sin_index idx) (sin_index_range idx))
    as (v & Hv & Hr).
  rewrite Hv.
  destruct (idx >=? SIN_LEN / 2).
  - exists (u8 (255 - v)). split; [reflexivity|].
    rewrite u8_small; lia.
  - exists v. split; [reflexivity | lia].
Qed.

(** C7. For every [idx] below SIN_LEN, the samples at [idx] and half a
    wave later add up to 255, and below SIN_LEN / 2 the sample at [idx]
    equals the sample at [SIN_LEN / 2 - 1 - idx]. *)
Theorem sin_sample_symmetry (idx : Z) :
  0 <= idx < SIN_LEN ->
  (exists a b,
      sin_sample idx = Some a /\
      sin_sample ((idx + SIN_LEN / 2) mod SIN_LEN) = Some b /\
      a + b = 255) /\
  (idx < SIN_LEN / 2 ->
   exists a,
      sin_sample idx = Some a /\
      sin_sample (SIN_LEN / 2 - 1 - idx) = Some a).
Proof.
  intros Hidx.
  pose (P := fun idx =>
     match sin_sample idx, sin_sample ((idx + SIN_LEN / 2) mod SIN_LEN),
           sin_sample (SIN_LEN / 2 - 1 - idx) with
     | Some a, Some b, r =>
         (a + b =? 255) &&
         (if idx <? SIN_LEN / 2
          then match r with Some c => a =? c | None => false end
          else true)
     | _, _, _ => false
     end).
  assert (Hall : forallb P (map Z.of_nat (seq 0 512)) = true)
    by (vm_compute; reflexivity).
  pose proof (forallb_below P 512 Hall idx Hidx) as H. subst P.
  cbv beta in H.
  destruct (sin_sample idx) as [a|]; [|discriminate].
  destruct (sin_sample ((idx + SIN_LEN / 2) mod SIN_LEN)) as [b|];
    [|discriminate].
  apply andb_true_iff in H. destruct H as [Hsum Hrefl].
  split.
  - exists a, b. repeat split; lia.
  - intros Hhalf. exists a. split; [reflexivity|].
    destruct (idx <? SIN_LEN / 2) eqn:E; [|lia].
    destruct (sin_sample (SIN_LEN / 2 - 1 - idx)) as [c|]; [|discriminate].
    f_equal. lia.
Qed.

Lemma sin_sample_symmetry_witness :
  0 <= 100 < SIN_LEN /\
  (exists a b,
      sin_sample 100 = Some a /\
      sin_sample ((100 + SIN_LEN / 2) mod SIN_LEN) = Some b /\
      a + b = 255) /\
  (100 < SIN_LEN / 2 ->
   exists a,
      sin_sample 100 = Some a /\
      sin_sample (SIN_LEN / 2 - 1 - 100) = Some a).
Proof.
  assert (H : 0 <= 100 < SIN_LEN) by (unfold SIN_LEN; lia).
  split; [exact H | exact (sin_sample_symmetry 100 H)].
Defined.

(** ** DAC tick: the oscillator step *)

(** The oscillator step never fails: the index it hands to [sin_sample] is
    the phase accumulator it has just reduced modulo SIN_LEN. *)
Lemma dac_dds_spec (s : Tx) :
  let acc := u16 (phase_acc s + phase_inc s) mod SIN_LEN in
  exists v,
    sin_sample acc = Some v /\
    dac_dds s =
      Some (set_sample_count (u8 (sample_count s - 1)) (set_phase_acc acc s),
            Sample v).
Proof.
  intros acc.
  assert (Hacc : 0 <= acc < SIN_LEN)
    by (apply Z.mod_pos_bound; unfold SIN_LEN; lia).
  destruct (sin_sample_defined acc Hacc) as (v & Hv & _).
  exists v. split; [exact Hv|].
  unfold dac_dds. cbn. fold acc. rewrite Hv. reflexivity.
Qed.

(** A tick that returns early leaves the bit-level state at a byte
    boundary, with the interrupt off and [sending] cleared, and does not
    touch the oscillator. *)
Lemma dac_isr_return cfg s s' :
  dac_isr cfg s = Some (s', NoSample) ->
  sample_count s = 0 /\ tx_bit s = 0 /\
  sample_count s' = 0 /\ tx_bit s' = 0 /\
  sending s' = false /\ dac_irq s' = false /\
  phase_acc s' = phase_acc s.
Proof.
  unfold dac_isr. intros H.
  destruct (sample_count s =? 0) eqn:Esc.
  2:{ destruct (dac_dds_spec s) as (v & _ & Hd). rewrite Hd in H.
      discriminate. }
  apply Z.eqb_eq in Esc.
  unfold dac_bit_boundary in H.
  destruct (tx_bit s =? 0) eqn:Etb.
  2:{ match type of H with
      | dac_dds ?t = _ => destruct (dac_dds_spec t) as (v & _ & Hd)
      end.
      rewrite Hd in H. discriminate. }
  apply Z.eqb_eq in Etb.
  destruct (dac_fetch s) as [r|c] eqn:Ef.
  - injection H as <-.
    unfold dac_fetch, dac_escape, dac_next_byte, dac_stop,
      AFSK_DAC_IRQ_STOP, fifo_pop in Ef.
    repeat break_if; try discriminate;
      injection Ef as <-; cbn; repeat split; assumption || reflexivity.
  - match type of H with
    | dac_dds ?t = _ => destruct (dac_dds_spec t) as (v & _ & Hd)
    end.
    rewrite Hd in H. discriminate.
Qed.

(** A tick that emits a sample leaves [sending] and the interrupt enable
    alone, and its phase accumulator is the index it looked up. *)
Lemma dac_isr_sample cfg s s' v :
  dac_isr cfg s = Some (s', Sample v) ->
  sending s' = sending s /\ dac_irq s' = dac_irq s /\
  0 <= phase_acc s' < SIN_LEN /\
  sin_sample (phase_acc s') = Some v.
Proof.
  unfold dac_isr. intros H.
  assert (Hd : forall t, dac_dds t = Some (s', Sample v) ->
             sending s' = sending t /\ dac_irq s' = dac_irq t /\
             0 <= phase_acc s' < SIN_LEN /\
             sin_sample (phase_acc s') = Some v).
  { intros t Ht. destruct (dac_dds_spec t) as (w & Hw & Hd).
    rewrite Hd in Ht. injection Ht as <- <-. cbn.
    repeat split; auto; apply Z.mod_pos_bound; unfold SIN_LEN; lia. }
  destruct (sample_count s =? 0); [|now apply Hd].
  unfold dac_bit_boundary in H.
  destruct (tx_bit s =? 0).
  - destruct (dac_fetch s) as [r|c] eqn:Ef; [discriminate|].
    apply Hd in H. cbn in H.
    assert (sending (dac_bit cfg c) = sending s /\
            dac_irq (dac_bit cfg c) = dac_irq s) as [Hs Hi].
    { unfold dac_fetch, dac_escape, dac_next_byte, dac_stop,
        AFSK_DAC_IRQ_STOP, fifo_pop in Ef.
      unfold dac_bit.
      repeat break_if; try discriminate;
        injection Ef as <-; cbn; auto. }
    rewrite <- Hs, <- Hi. exact H.
  - apply Hd in H. cbn in H.
    assert (sending (dac_bit cfg s) = sending s /\
            dac_irq (dac_bit cfg s) = dac_irq s) as [Hs Hi].
    { unfold dac_bit. repeat break_if; cbn; auto. }
    rewrite <- Hs, <- Hi. exact H.
Qed.

(** C10. Every call of [sin_sample] made by the DAC tick has an argument
    below SIN_LEN and reads inside the 128-entry table: the tick never
    fails, and when it emits a sample the argument of the lookup is the
    phase accumulator just reduced modulo SIN_LEN. *)
Theorem dac_isr_sin_sample_safe (cfg : Config) (s : Tx) :
  exists s' out,
    dac_isr cfg s = Some (s', out) /\
    match out with
    | NoSample => True
    | Sample v =>
        0 <= phase_acc s' < SIN_LEN /\
        (0 <= sin_index (phase_acc s') < Z.of_nat (length sin_table)) /\
        sin_sample (phase_acc s') = Some v
    end.
Proof.
  destruct (dac_isr cfg s) as [[s' out]|] eqn:E.
  - exists s', out. split; [reflexivity|].
    destruct out as [|v]; [exact I|].
    destruct (dac_isr_sample _ _ _ _ E) as (_ & _ & Hr & Hv).
    repeat split; try tauto.
    + apply sin_index_range.
    + rewrite sin_table_length. apply sin_index_range.
  - exfalso. unfold dac_isr in E.
    destruct (if sample_count s =? 0 then dac_bit_boundary cfg s
              else Continue s) as [r|c]; [discriminate|].
    destruct (dac_dds_spec c) as (v & _ & Hd). rewrite Hd in E.
    discriminate.
Qed.

(** ** Invariants of the transmitter *)

Lemma fold_left_invariant {A B : Type} (f : A -> B -> A) (P : A -> Prop) :
  (forall a b, P a -> P (f a b)) ->
  forall l a, P a -> P (fold_left f l a).
Proof.
  intros Hstep l. induction l as [|b l IH]; intros a Ha; cbn.
  - exact Ha.
  - apply IH, Hstep, Ha.
Qed.

Lemma tx_inv_init cfg : tx_inv (tx_init cfg).
Proof.
  unfold tx_inv, tx_init, SIN_LEN. cbn.
  repeat split; try reflexivity; try discriminate; lia.
Qed.

Lemma tx_inv_arm cfg s : tx_inv s -> tx_inv (tx_arm cfg s).
Proof.
  unfold tx_inv, tx_arm, AFSK_DAC_IRQ_START.
  intros (Hidle & Hirq & Hacc).
  destruct (sending s) eqn:Es; cbn.
  - rewrite Es. repeat split; intros; try discriminate; try tauto; lia.
  - unfold SIN_LEN. repeat split; intros; try discriminate; lia.
Qed.

Lemma tx_inv_step cfg s e : tx_inv s -> tx_inv (tx_step cfg s e).
Proof.
  intros H. destruct e as [|b| |]; cbn.
  - destruct (dac_irq s) eqn:Ei; [|exact H].
    destruct (dac_isr cfg s) as [[s' [|v]]|] eqn:Ed; [| |exact H].
    + destruct (dac_isr_return _ _ _ Ed) as (_ & _ & Hsc & Htb & Hs & Hi & Ha).
      destruct H as (_ & _ & Hacc).
      unfold tx_inv. rewrite Hsc, Htb, Hs, Hi, Ha.
      repeat split; intros; try discriminate; lia.
    + destruct (dac_isr_sample _ _ _ _ Ed) as (Hs & Hi & Ha & _).
      destruct H as (_ & Hirq & _).
      unfold tx_inv. rewrite Hs, Hi, (Hirq Ei).
      repeat split; intros; try discriminate; lia.
  - destruct (fifo_isfull (tx_fifo s)); exact H.
  - apply tx_inv_arm. exact H.
  - exact H.
Qed.

Lemma tx_inv_run cfg evs : tx_inv (tx_run cfg evs (tx_init cfg)).
Proof.
  unfold tx_run. apply fold_left_invariant.
  - intros a b. apply tx_inv_step.
  - apply tx_inv_init.
Qed.

(** C9. After any interleaving of DAC ticks with the steps of [afsk_write],
    from the initial state, a transmitter whose [sending] flag is clear has
    [tx_bit = 0] and [sample_count = 0]; [afsk_txStart] keeps both, so the
    first tick of the transmission it starts goes through the fetch of a
    new octet. *)
Theorem idle_tx_at_byte_boundary (cfg : Config) (evs : list TxEvent) :
  let s := tx_run cfg evs (tx_init cfg) in
  sending s = false ->
  (tx_bit s = 0 /\ sample_count s = 0) /\
  (let s1 := afsk_txStart cfg s in
   sending s1 = true /\ dac_irq s1 = true /\
   tx_bit s1 = 0 /\ sample_count s1 = 0 /\
   dac_isr cfg s1 =
     match dac_fetch s1 with
     | Return r => Some (r, NoSample)
     | Continue c =>
         dac_dds (set_sample_count (u8 (DAC_SAMPLEPERBIT cfg)) (dac_bit cfg c))
     end).
Proof.
  intros s Hs.
  destruct (tx_inv_run cfg evs) as (Hidle & _ & _).
  fold s in Hidle. destruct (Hidle Hs) as [Htb Hsc].
  split; [split; assumption|].
  unfold afsk_txStart, tx_trailer, tx_arm, AFSK_DAC_IRQ_START.
  rewrite Hs. cbn.
  repeat split; auto.
  unfold dac_isr, dac_bit_boundary. cbn. rewrite Hsc, Htb. cbn.
  match goal with |- context [dac_fetch ?t] => destruct (dac_fetch t) end;
    reflexivity.
Qed.

Lemma idle_tx_at_byte_boundary_witness :
  sending (tx_run cfg_short short_frame_events (tx_init cfg_short)) = false /\
  tx_bit (tx_run cfg_short short_frame_events (tx_init cfg_short)) = 0 /\
  sample_count (tx_run cfg_short short_frame_events (tx_init cfg_short)) = 0.
Proof.
  assert (H : sending (tx_run cfg_short short_frame_events
                         (tx_init cfg_short)) = false)
    by (vm_compute; reflexivity).
  split; [exact H|].
  exact (proj1 (idle_tx_at_byte_boundary cfg_short short_frame_events H)).
Defined.

(** ** Invariants of the receiver *)

Lemma hdlc_parse_curr_phase bit s :
  curr_phase (hdlc_parse bit s) = curr_phase s.
Proof.
  unfold hdlc_parse. repeat break_if; reflexivity.
Qed.

Lemma adc_filter_curr_phase cfg adc s :
  curr_phase (adc_filter cfg adc s) = curr_phase s.
Proof.
  unfold adc_filter, fifo_pop. destruct (CONFIG_AFSK_FILTER cfg); reflexivity.
Qed.

(** The phase arithmetic never leaves the range of an int8_t, so the
    stores into [curr_phase] do not wrap. *)
Lemma adc_sync_curr_phase s :
  0 <= curr_phase s < PHASE_MAX ->
  PHASE_BIT <= curr_phase (adc_sync s) <= PHASE_MAX + PHASE_BIT.
Proof.
  unfold adc_sync.
  change PHASE_THRES with 32. change PHASE_MAX with 64.
  change PHASE_INC with 1. change PHASE_BIT with 8.
  intros Hp.
  destruct (negb (EDGE_FOUND (sampled_bits s) =? 0)).
  - destruct (curr_phase s <? 32) eqn:E; cbn [curr_phase set_curr_phase].
    + rewrite (s8_small (curr_phase s + 1)) by lia.
      rewrite s8_small by lia. lia.
    + rewrite (s8_small (curr_phase s - 1)) by lia.
      rewrite s8_small by lia. lia.
  - cbn [curr_phase set_curr_phase]. rewrite s8_small by lia. lia.
Qed.

Lemma adc_sample_curr_phase s :
  0 <= curr_phase s <= PHASE_MAX + PHASE_BIT ->
  0 <= curr_phase (fst (adc_sample s)) < PHASE_MAX.
Proof.
  unfold adc_sample.
  change PHASE_MAX with 64. change PHASE_BIT with 8.
  intros Hp.
  destruct (curr_phase s >=? 64) eqn:E.
  - pose proof (Z.rem_bound_pos (curr_phase s) 64 ltac:(lia) ltac:(lia)).
    assert (Hc : s8 (Z.rem (curr_phase s) 64) = Z.rem (curr_phase s) 64)
      by (apply s8_small; lia).
    cbv zeta. break_if; cbn [fst curr_phase set_curr_phase set_found_bits];
      rewrite Hc; lia.
  - cbn [fst]. lia.
Qed.

Lemma rx_inv_step cfg s adc : rx_inv s -> rx_inv (adc_isr cfg s adc).
Proof.
  unfold rx_inv, adc_isr, adc_demod. intros H.
  pose proof (adc_sync_curr_phase (adc_filter cfg adc s)) as Hs.
  rewrite adc_filter_curr_phase in Hs. specialize (Hs H).
  assert (Hr : 0 <= curr_phase (adc_sync (adc_filter cfg adc s))
               <= PHASE_MAX + PHASE_BIT)
    by (change PHASE_BIT with 8 in *; lia).
  apply adc_sample_curr_phase in Hr.
  destruct (adc_sample (adc_sync (adc_filter cfg adc s))) as [s' [bit|]];
    cbn in Hr; [rewrite hdlc_parse_curr_phase|]; exact Hr.
Qed.

Lemma rx_inv_run cfg samples : rx_inv (rx_run cfg samples (rx_init cfg)).
Proof.
  unfold rx_run. apply fold_left_invariant.
  - intros a b. apply rx_inv_step.
  - unfold rx_inv, rx_init. cbn. change PHASE_MAX with 64. lia.
Qed.

(** C8. After every update of the phase state the oscillator phase lies in
    [0, SIN_LEN) and the bit-synchronisation phase in [0, PHASE_MAX): for
    every interleaving of DAC ticks with the steps of [afsk_write], and for
    every sequence of ADC samples, from the initial state. *)
Theorem phase_state_in_range (cfg : Config) :
  (forall evs : list TxEvent,
      0 <= phase_acc (tx_run cfg evs (tx_init cfg)) < SIN_LEN) /\
  (forall samples : list Z,
      0 <= curr_phase (rx_run cfg samples (rx_init cfg)) < PHASE_MAX).
Proof.
  split.
  - intros evs. exact (proj2 (proj2 (tx_inv_run cfg evs))).
  - intros samples. exact (rx_inv_run cfg samples).
Qed.

(** ** DAC tick: fetching an octet *)

Lemma dac_bit_frame cfg s :
  curr_out (dac_bit cfg s) = curr_out s /\
  tx_fifo (dac_bit cfg s) = tx_fifo s /\
  bit_stuff (dac_bit cfg s) = bit_stuff s /\
  preamble_len (dac_bit cfg s) = preamble_len s /\
  trailer_len (dac_bit cfg s) = trailer_len s /\
  phase_acc (dac_bit cfg s) = phase_acc s /\
  sending (dac_bit cfg s) = sending s /\
  dac_irq (dac_bit cfg s) = dac_irq s.
Proof.
  unfold dac_bit. repeat break_if; cbn; repeat split; reflexivity.
Qed.

Lemma dac_next_byte_frame s :
  sending (dac_next_byte s) = sending s /\
  dac_irq (dac_next_byte s) = dac_irq s /\
  phase_acc (dac_next_byte s) = phase_acc s /\
  phase_inc (dac_next_byte s) = phase_inc s /\
  bit_stuff (dac_next_byte s) = true.
Proof.
  unfold dac_next_byte, fifo_pop. repeat break_if; cbn; repeat split; reflexivity.
Qed.

(** The octet chosen by the handler is AX25_ESC only when it was popped
    from the queue: the preamble is over and AX25_ESC is at the head. *)
Lemma dac_next_byte_esc s :
  curr_out (dac_next_byte s) = AX25_ESC ->
  preamble_len s = 0 /\
  exists rest, items (tx_fifo s) = AX25_ESC :: rest /\
               items (tx_fifo (dac_next_byte s)) = rest.
Proof.
  unfold dac_next_byte, fifo_pop, fifo_isempty.
  destruct (bit_stuff s); cbn;
    (destruct (preamble_len s =? 0) eqn:Ep;
     [ apply Z.eqb_eq in Ep;
       destruct (items (tx_fifo s)) as [|c rest] eqn:Ei; cbn;
       [ unfold HDLC_FLAG, AX25_ESC; discriminate
       | intros ->; split; [exact Ep|]; exists rest; split; reflexivity ]
     | cbn; unfold HDLC_FLAG, AX25_ESC; discriminate ]).
Qed.

(** The oscillator step touches the phase accumulator and the sample
    counter only, and always yields a sample. *)
Lemma dac_dds_frame s :
  exists s' v,
    dac_dds s = Some (s', Sample v) /\
    curr_out s' = curr_out s /\ tx_bit s' = tx_bit s /\
    bit_stuff s' = bit_stuff s /\ stuff_cnt s' = stuff_cnt s /\
    phase_inc s' = phase_inc s /\ tx_fifo s' = tx_fifo s /\
    preamble_len s' = preamble_len s /\ trailer_len s' = trailer_len s /\
    sending s' = sending s /\ dac_irq s' = dac_irq s /\
    sample_count s' = u8 (sample_count s - 1).
Proof.
  destruct (dac_dds_spec s) as (v & _ & Hd).
  eexists. exists v. split; [exact Hd|].
  cbn. repeat split; reflexivity.
Qed.

(** The oscillator step after the bit step: a sample always comes out, and
    neither step touches the octet, the queue, the counters of the
    preamble and trailer, or the flags. *)
Lemma dac_dds_after_bit cfg n t :
  exists s' v,
    dac_dds (set_sample_count n (dac_bit cfg t)) = Some (s', Sample v) /\
    curr_out s' = curr_out t /\
    tx_fifo s' = tx_fifo t /\
    sending s' = sending t /\
    dac_irq s' = dac_irq t /\
    stuff_cnt s' = stuff_cnt (dac_bit cfg t) /\
    phase_inc s' = phase_inc (dac_bit cfg t) /\
    tx_bit s' = tx_bit (dac_bit cfg t) /\
    preamble_len s' = preamble_len t /\
    trailer_len s' = trailer_len t /\
    sample_count s' = u8 (n - 1).
Proof.
  destruct (dac_bit_frame cfg t) as (Hc & Hf & _ & Hp & Ht & _ & Hs & Hi).
  revert Hc Hf Hp Ht Hs Hi. generalize (dac_bit cfg t).
  intros b Hc Hf Hp Ht Hs Hi.
  destruct (dac_dds_frame (set_sample_count n b))
    as (s' & v & Hd & Fc & Fb & _ & Fn & Fi & Ff & Fp & Ft & Fs & Fq & Fk).
  exists s', v. split; [exact Hd|].
  rewrite Fc, Fb, Fn, Fi, Ff, Fp, Ft, Fs, Fq, Fk. cbn.
  rewrite Hc, Hf, Hp, Ht, Hs, Hi. repeat split; reflexivity.
Qed.

(** At a byte boundary the tick is the fetch followed by the bit and the
    oscillator steps. *)
Lemma dac_isr_at_fetch cfg s :
  sample_count s = 0 ->
  tx_bit s = 0 ->
  dac_isr cfg s =
    match dac_fetch s with
    | Return r => Some (r, NoSample)
    | Continue c =>
        dac_dds (set_sample_count (u8 (DAC_SAMPLEPERBIT cfg)) (dac_bit cfg c))
    end.
Proof.
  intros Hsc Htb. unfold dac_isr, dac_bit_boundary.
  rewrite Hsc, Htb. cbn [Z.eqb].
  destruct (dac_fetch s); reflexivity.
Qed.

Lemma dac_escape_esc s :
  curr_out s = AX25_ESC ->
  dac_escape s =
    match items (tx_fifo s) with
    | [] => Return (dac_stop s)
    | literal :: rest =>
        Continue (set_curr_out literal
                    (set_tx_fifo {| items := rest;
                                    capacity := capacity (tx_fifo s) |} s))
    end.
Proof.
  intros H. unfold dac_escape, fifo_isempty, fifo_pop. rewrite H.
  rewrite Z.eqb_refl.
  destruct (items (tx_fifo s)); reflexivity.
Qed.

(** C3. When the DAC tick fetches a new octet and obtains AX25_ESC: with
    nothing left in the TX queue it disables the DAC interrupt, clears
    [sending] and returns without emitting a sample; otherwise the next
    octet of the queue becomes [curr_out], the literal to transmit. *)
Theorem dac_isr_escape (cfg : Config) (s : Tx) :
  sample_count s = 0 ->
  tx_bit s = 0 ->
  curr_out (dac_next_byte s) = AX25_ESC ->
  exists rest,
    items (tx_fifo s) = AX25_ESC :: rest /\
    match rest with
    | [] =>
        exists s',
          dac_isr cfg s = Some (s', NoSample) /\
          dac_irq s' = false /\ sending s' = false /\
          phase_acc s' = phase_acc s
    | literal :: rest' =>
        exists s' v,
          dac_isr cfg s = Some (s', Sample v) /\
          curr_out s' = literal /\
          items (tx_fifo s') = rest' /\
          sending s' = sending s /\ dac_irq s' = dac_irq s
    end.
Proof.
  intros Hsc Htb Hesc.
  destruct (dac_next_byte_esc s Hesc) as (Hpre & rest & Hit & Hrest).
  exists rest. split; [exact Hit|].
  assert (Hfetch : dac_fetch s =
            match dac_escape (dac_next_byte s) with
            | Return r => Return r
            | Continue c => Continue (set_tx_bit 1 c)
            end).
  { unfold dac_fetch, fifo_isempty. rewrite Hit. reflexivity. }
  rewrite (dac_escape_esc _ Hesc), Hrest in Hfetch.
  rewrite (dac_isr_at_fetch cfg s Hsc Htb), Hfetch.
  destruct (dac_next_byte_frame s) as (Hs' & Hi' & Ha' & _).
  destruct rest as [|literal rest'].
  - exists (dac_stop (dac_next_byte s)). split; [reflexivity|].
    repeat split; try reflexivity. exact Ha'.
  - match goal with
    | |- context [dac_dds (set_sample_count ?n (dac_bit cfg ?t))] =>
        destruct (dac_dds_after_bit cfg n t)
          as (s' & v & Hd & Hc & Hf & Hs & Hi & _)
    end.
    exists s', v. split; [exact Hd|].
    rewrite Hc, Hf, Hs, Hi.
    repeat split; assumption || reflexivity.
Qed.

Lemma dac_isr_escape_witness :
  sample_count tx_lone_escape = 0 /\
  tx_bit tx_lone_escape = 0 /\
  curr_out (dac_next_byte tx_lone_escape) = AX25_ESC /\
  exists rest,
    items (tx_fifo tx_lone_escape) = AX25_ESC :: rest /\
    match rest with
    | [] =>
        exists s',
          dac_isr cfg_bare tx_lone_escape = Some (s', NoSample) /\
          dac_irq s' = false /\ sending s' = false /\
          phase_acc s' = phase_acc tx_lone_escape
    | literal :: rest' =>
        exists s' v,
          dac_isr cfg_bare tx_lone_escape = Some (s', Sample v) /\
          curr_out s' = literal /\
          items (tx_fifo s') = rest' /\
          sending s' = sending tx_lone_escape /\
          dac_irq s' = dac_irq tx_lone_escape
    end.
Proof.
  assert (H1 : sample_count tx_lone_escape = 0) by (vm_compute; reflexivity).
  assert (H2 : tx_bit tx_lone_escape = 0) by (vm_compute; reflexivity).
  assert (H3 : curr_out (dac_next_byte tx_lone_escape) = AX25_ESC)
    by (vm_compute; reflexivity).
  split; [exact H1|]. split; [exact H2|]. split; [exact H3|].
  exact (dac_isr_escape cfg_bare tx_lone_escape H1 H2 H3).
Defined.

(** ** DAC tick: emitting a bit *)

Lemma SWITCH_TONE_toggle cfg inc :
  (inc = MARK_INC cfg -> SWITCH_TONE cfg inc = SPACE_INC cfg) /\
  (inc = SPACE_INC cfg -> SWITCH_TONE cfg inc = MARK_INC cfg).
Proof.
  unfold SWITCH_TONE. split; intros ->.
  - now rewrite Z.eqb_refl.
  - destruct (SPACE_INC cfg =? MARK_INC cfg) eqn:E; [|reflexivity].
    now apply Z.eqb_eq in E.
Qed.

(** ** Well-formed transmitter states *)

Lemma SWITCH_TONE_tone cfg inc :
  SWITCH_TONE cfg inc = MARK_INC cfg \/ SWITCH_TONE cfg inc = SPACE_INC cfg.
Proof. unfold SWITCH_TONE. destruct (inc =? MARK_INC cfg); auto. Qed.

Lemma tx_wf_init cfg : tx_wf cfg (tx_init cfg).
Proof.
  unfold tx_wf, tx_init, is_mask. cbn.
  repeat split; auto; try discriminate.
Qed.

Lemma tx_wf_arm cfg s : tx_wf cfg s -> tx_wf cfg (tx_arm cfg s).
Proof.
  unfold tx_wf, tx_arm, AFSK_DAC_IRQ_START.
  intros (Ht & Hm & Hc & Hb).
  destruct (sending s); cbn; [repeat split; tauto || lia|].
  split; [left; reflexivity|]. split; [exact Hm|].
  split; [|intros _; unfold BIT_STUFF_LEN; lia].
  unfold BIT_STUFF_LEN, mask_index, is_mask in *.
  repeat destruct Hm as [Hm | Hm]; rewrite Hm; cbn; lia.
Qed.

Lemma tx_wf_dds cfg s s' out :
  dac_dds s = Some (s', out) -> tx_wf cfg s -> tx_wf cfg s'.
Proof.
  intros Hd.
  destruct (dac_dds_frame s)
    as (t & v & Hd' & _ & Fb & Fs & Fn & Fi & _).
  rewrite Hd' in Hd. injection Hd as <- <-.
  unfold tx_wf. rewrite Fb, Fs, Fn, Fi. tauto.
Qed.

(** The bit step on a state whose mask selects a bit. *)
Lemma tx_wf_bit cfg s :
  tx_wf cfg s -> tx_bit s <> 0 -> tx_wf cfg (dac_bit cfg s).
Proof.
  unfold tx_wf, dac_bit.
  destruct s as [sc co tb bs cnt acc inc q pl tl snd irq]. cbn.
  intros (Ht & Hm & Hc & Hb) Hnz.
  pose proof (SWITCH_TONE_tone cfg inc) as Hsw.
  unfold BIT_STUFF_LEN, mask_index, is_mask in *.
  destruct Hm as [Hm | Hm]; [contradiction|].
  repeat destruct Hm as [Hm | Hm]; subst tb; cbn in Hc |- *;
    (destruct bs; cbn;
     [ destruct (cnt >=? 5) eqn:E; cbn;
       [ repeat split; auto; try lia;
         try (intros _; lia); tauto
       | rewrite Z.geb_leb in E; apply Z.leb_gt in E;
         specialize (Hb eq_refl) ]
     | ];
     (destruct (Z.land co _ =? 0); cbn;
      [ repeat split; auto; try lia; try (intros _; lia); tauto
      | rewrite (u8_small (cnt + 1)) by lia;
        repeat split; auto; try lia; try discriminate;
        try (intros _; lia); tauto ])).
Qed.

(** The fetch of a new octet. *)
Lemma tx_wf_fetch cfg s :
  tx_wf cfg s ->
  match dac_fetch s with
  | Return r => tx_wf cfg r
  | Continue t => tx_wf cfg t /\ tx_bit t = 1
  end.
Proof.
  unfold tx_wf, dac_fetch, dac_escape, dac_next_byte, dac_stop,
    AFSK_DAC_IRQ_STOP, fifo_pop.
  destruct s as [sc co tb bs cnt acc inc q pl tl snd irq]. cbn.
  intros (Ht & Hm & Hc & Hb).
  assert (Hone : is_mask 1) by (unfold is_mask; auto).
  unfold BIT_STUFF_LEN, mask_index in *.
  assert (Hidx : 0 <= (if tb =? 0 then 8 else Z.log2 tb)).
  { destruct (tb =? 0); [lia | apply Z.log2_nonneg]. }
  destruct bs; cbn; repeat (break_if; cbn);
    repeat split; auto; try lia; try (intros _; lia);
    try (specialize (Hb eq_refl); lia); try discriminate.
Qed.

Lemma tx_wf_isr cfg s s' out :
  dac_isr cfg s = Some (s', out) -> tx_wf cfg s -> tx_wf cfg s'.
Proof.
  unfold dac_isr, dac_bit_boundary. intros Hd Hwf.
  destruct (sample_count s =? 0); [|exact (tx_wf_dds _ _ _ _ Hd Hwf)].
  destruct (tx_bit s =? 0) eqn:Etb.
  - pose proof (tx_wf_fetch cfg s Hwf) as Hf.
    destruct (dac_fetch s) as [r|t].
    + injection Hd as <- <-. exact Hf.
    + destruct Hf as [Hwt Ht1].
      assert (Hb : tx_wf cfg (dac_bit cfg t))
        by (apply tx_wf_bit; [exact Hwt | lia]).
      revert Hd Hb. generalize (dac_bit cfg t). intros b Hd Hb.
      refine (tx_wf_dds cfg _ _ _ Hd _).
      unfold tx_wf in *. cbn. exact Hb.
  - apply Z.eqb_neq in Etb.
    assert (Hb : tx_wf cfg (dac_bit cfg s))
      by (apply tx_wf_bit; assumption).
    revert Hd Hb. generalize (dac_bit cfg s). intros b Hd Hb.
    refine (tx_wf_dds cfg _ _ _ Hd _).
    unfold tx_wf in *. cbn. exact Hb.
Qed.

Lemma tx_wf_step cfg s e : tx_wf cfg s -> tx_wf cfg (tx_step cfg s e).
Proof.
  intros H. destruct e as [|b| |]; cbn.
  - destruct (dac_irq s); [|exact H].
    destruct (dac_isr cfg s) as [[s' out]|] eqn:E; [|exact H].
    exact (tx_wf_isr _ _ _ _ E H).
  - destruct (fifo_isfull (tx_fifo s)); exact H.
  - apply tx_wf_arm. exact H.
  - exact H.
Qed.

(** Every state the transmitter can reach is well formed; in particular
    the run of ones never gets near the range of its uint8_t counter. *)
Lemma tx_wf_run cfg evs : tx_wf cfg (tx_run cfg evs (tx_init cfg)).
Proof.
  unfold tx_run. apply fold_left_invariant.
  - intros a b. apply tx_wf_step.
  - apply tx_wf_init.
Qed.

(** On a well-formed state about to emit a bit, the mask selects a bit and
    the run of ones is far from the range of its counter. *)
Lemma tx_wf_before_bit cfg s s1 :
  tx_wf cfg s ->
  (if tx_bit s =? 0 then dac_fetch s else Continue s) = Continue s1 ->
  tx_wf cfg s1 /\ tx_bit s1 <> 0 /\ 0 <= stuff_cnt s1 <= 12.
Proof.
  intros Hwf Hflow.
  assert (H : tx_wf cfg s1 /\ tx_bit s1 <> 0).
  { destruct (tx_bit s =? 0) eqn:Etb.
    - pose proof (tx_wf_fetch cfg s Hwf) as Hf. rewrite Hflow in Hf.
      destruct Hf as [Hw H1]. split; [exact Hw | lia].
    - injection Hflow as <-. apply Z.eqb_neq in Etb. split; assumption. }
  destruct H as [Hw Hnz]. split; [exact Hw|]. split; [exact Hnz|].
  destruct Hw as (_ & Hm & Hc & _).
  unfold BIT_STUFF_LEN, mask_index, is_mask in *.
  destruct Hm as [Hm | Hm]; [contradiction|].
  repeat destruct Hm as [Hm | Hm]; rewrite Hm in Hc; cbn in Hc; lia.
Qed.

(** C4. At a bit boundary of the DAC tick, with [s1] the state after any
    fetch of a new octet: when bit stuffing is on and five ones have gone
    out, a zero is stuffed ([stuff_cnt] reset, tone switched, [tx_bit]
    kept); otherwise the data bit [curr_out & tx_bit] goes out (a one keeps
    the tone and counts, a zero switches the tone and resets the count) and
    [tx_bit] moves one place to the left.  The switch of tone goes from
    MARK_INC to SPACE_INC and back, and on the states the transmitter can
    reach the 8-bit increment of [stuff_cnt] is an exact increment. *)
Theorem dac_isr_bit_boundary (cfg : Config) (s s1 : Tx) :
  sample_count s = 0 ->
  (if tx_bit s =? 0 then dac_fetch s else Continue s) = Continue s1 ->
  exists s' v,
    dac_isr cfg s = Some (s', Sample v) /\
    (bit_stuff s1 = true /\ BIT_STUFF_LEN <= stuff_cnt s1 ->
       stuff_cnt s' = 0 /\
       phase_inc s' = SWITCH_TONE cfg (phase_inc s1) /\
       tx_bit s' = tx_bit s1) /\
    (~ (bit_stuff s1 = true /\ BIT_STUFF_LEN <= stuff_cnt s1) ->
       (Z.land (curr_out s1) (tx_bit s1) <> 0 ->
          phase_inc s' = phase_inc s1 /\
          stuff_cnt s' = u8 (stuff_cnt s1 + 1)) /\
       (Z.land (curr_out s1) (tx_bit s1) = 0 ->
          phase_inc s' = SWITCH_TONE cfg (phase_inc s1) /\
          stuff_cnt s' = 0) /\
       tx_bit s' = u8 (Z.shiftl (tx_bit s1) 1)) /\
    (phase_inc s1 = MARK_INC cfg ->
       SWITCH_TONE cfg (phase_inc s1) = SPACE_INC cfg) /\
    (phase_inc s1 = SPACE_INC cfg ->
       SWITCH_TONE cfg (phase_inc s1) = MARK_INC cfg) /\
    (tx_wf cfg s ->
       (phase_inc s1 = MARK_INC cfg \/ phase_inc s1 = SPACE_INC cfg) /\
       u8 (stuff_cnt s1 + 1) = stuff_cnt s1 + 1).
Proof.
  intros Hsc Hflow.
  assert (Hwf : tx_wf cfg s ->
            (phase_inc s1 = MARK_INC cfg \/ phase_inc s1 = SPACE_INC cfg) /\
            u8 (stuff_cnt s1 + 1) = stuff_cnt s1 + 1).
  { intros Hw.
    destruct (tx_wf_before_bit cfg s s1 Hw Hflow) as ((Ht & _) & _ & Hc).
    split; [exact Ht | apply u8_small; lia]. }
  destruct (SWITCH_TONE_toggle cfg (phase_inc s1)) as [Hms Hsm].
  unfold dac_isr, dac_bit_boundary. rewrite Hsc. cbn [Z.eqb].
  rewrite Hflow. clear Hflow Hsc.
  revert Hwf. generalize (tx_wf cfg s). intros W Hwf.
  destruct (dac_dds_after_bit cfg (u8 (DAC_SAMPLEPERBIT cfg)) s1)
    as (s' & v & Hd & _ & _ & _ & _ & Hcnt & Hinc & Hbit & _).
  exists s', v. split; [exact Hd|].
  rewrite Hcnt, Hinc, Hbit. clear Hd Hcnt Hinc Hbit s'.
  destruct s1 as [sc co tb bs cnt acc inc q pl tl snd irq].
  unfold dac_bit. cbn in Hwf, Hms, Hsm |- *.
  destruct bs; cbn [andb].
  - destruct (cnt >=? BIT_STUFF_LEN) eqn:Ec.
    + split; [intros _; cbn; repeat split; reflexivity|].
      split; [|split; [exact Hms | split; [exact Hsm | exact Hwf]]].
      intros Hn. exfalso. apply Hn. split; [reflexivity | lia].
    + split; [intros [_ Hge]; lia|].
      split; [|split; [exact Hms | split; [exact Hsm | exact Hwf]]]. intros _.
      destruct (Z.land co tb =? 0) eqn:El; cbn.
      * apply Z.eqb_eq in El.
        repeat split; try reflexivity; intros; contradiction.
      * apply Z.eqb_neq in El.
        repeat split; try reflexivity; intros; contradiction.
  - split; [intros [Hb _]; discriminate|].
    split; [|split; [exact Hms | split; [exact Hsm | exact Hwf]]]. intros _.
    destruct (Z.land co tb =? 0) eqn:El; cbn.
    + apply Z.eqb_eq in El.
      repeat split; try reflexivity; intros; contradiction.
    + apply Z.eqb_neq in El.
      repeat split; try reflexivity; intros; contradiction.
Qed.

Lemma dac_isr_bit_boundary_witness :
  sample_count tx_five_ones = 0 /\
  bit_stuff tx_five_ones = true /\
  BIT_STUFF_LEN <= stuff_cnt tx_five_ones /\
  exists s' v,
    dac_isr cfg_bare tx_five_ones = Some (s', Sample v) /\
    stuff_cnt s' = 0 /\
    phase_inc s' = SWITCH_TONE cfg_bare (phase_inc tx_five_ones) /\
    tx_bit s' = tx_bit tx_five_ones.
Proof.
  assert (H1 : sample_count tx_five_ones = 0) by (vm_compute; reflexivity).
  assert (H2 : (if tx_bit tx_five_ones =? 0 then dac_fetch tx_five_ones
                else Continue tx_five_ones) = Continue tx_five_ones)
    by (vm_compute; reflexivity).
  assert (H3 : bit_stuff tx_five_ones = true) by (vm_compute; reflexivity).
  assert (H4 : BIT_STUFF_LEN <= stuff_cnt tx_five_ones)
    by (vm_compute; discriminate).
  split; [exact H1|]. split; [exact H3|]. split; [exact H4|].
  destruct (dac_isr_bit_boundary cfg_bare tx_five_ones tx_five_ones H1 H2)
    as (s' & v & Hd & Hstuff & _).
  exists s', v. split; [exact Hd|].
  apply Hstuff. split; assumption.
Defined.

(** ** Length of the preamble *)

(** What [afsk_txStart] computes is the quotient rounded to the nearest
    integer: the floor, plus one when the remainder reaches half the
    divisor. *)
Lemma DIV_ROUND_8000 (a : Z) :
  DIV_ROUND a 8000 = a / 8000 + (if 4000 <=? a mod 8000 then 1 else 0).
Proof.
  unfold DIV_ROUND. change (8000 / 2) with 4000.
  pose proof (Z.div_mod a 8000 ltac:(lia)) as Hdm.
  pose proof (Z.mod_pos_bound a 8000 ltac:(lia)) as Hr.
  destruct (4000 <=? a mod 8000) eqn:E.
  - apply Z.leb_le in E. symmetry.
    apply (Z.div_unique _ _ _ (a mod 8000 - 4000)); lia.
  - apply Z.leb_gt in E. symmetry.
    apply (Z.div_unique _ _ _ (a mod 8000 + 4000)); lia.
Qed.

(** One DAC tick during the preamble of a transmission whose queue holds
    payload: the transmission goes on, the queue is untouched, and the
    preamble counter drops by one exactly in the preamble branch. *)
Lemma preamble_tick cfg s :
  dac_irq s = true ->
  sending s = true ->
  fifo_isempty (tx_fifo s) = false ->
  0 <= preamble_len s < 65536 ->
  pops_payload s = false ->
  sending (tx_step cfg s DacTick) = true /\
  dac_irq (tx_step cfg s DacTick) = true /\
  tx_fifo (tx_step cfg s DacTick) = tx_fifo s /\
  preamble_len (tx_step cfg s DacTick) =
    preamble_len s - (if in_preamble_branch s then 1 else 0).
Proof.
  intros Hirq Hsend Hfifo Hpre Hpop.
  unfold tx_step. rewrite Hirq.
  unfold in_preamble_branch, pops_payload, dac_fetches in *.
  rewrite Hfifo in *. cbn [andb negb] in *. rewrite andb_true_r in *.
  unfold dac_isr.
  destruct (sample_count s =? 0) eqn:Esc; cbn [andb] in *.
  2:{ destruct (dac_dds_frame s)
        as (s' & v & Hd & _ & _ & _ & _ & _ & Ff & Fp & _ & Fs & Fi & _).
      rewrite Hd, Fs, Fi, Ff, Fp. repeat split; auto; lia. }
  unfold dac_bit_boundary.
  destruct (tx_bit s =? 0) eqn:Etb; cbn [andb] in *.
  2:{ destruct (dac_dds_after_bit cfg (u8 (DAC_SAMPLEPERBIT cfg)) s)
        as (s' & v & Hd & _ & Hf & Hs & Hi & _ & _ & _ & Hp & _).
      rewrite Hd, Hf, Hs, Hi, Hp. repeat split; auto; lia. }
  destruct (preamble_len s =? 0) eqn:Ep; [discriminate|]. cbn [negb].
  apply Z.eqb_neq in Ep.
  assert (Hfetch : exists t,
            dac_fetch s = Continue t /\
            tx_fifo t = tx_fifo s /\ sending t = sending s /\
            dac_irq t = dac_irq s /\ preamble_len t = preamble_len s - 1).
  { clear Hpop. destruct s as [sc co tb bs cnt acc inc q pl tl snd irq].
    cbn in *.
    unfold dac_fetch, dac_next_byte, dac_escape. cbn.
    rewrite Hfifo. cbn.
    assert (E : (pl =? 0) = false) by (apply Z.eqb_neq; exact Ep).
    destruct bs; cbn; rewrite E; cbn;
      (eexists; split; [reflexivity|]; cbn;
       repeat split; try reflexivity; apply u16_small; lia). }
  destruct Hfetch as (t & Hft & Tf & Ts & Ti & Tp).
  rewrite Hft.
  destruct (dac_dds_after_bit cfg (u8 (DAC_SAMPLEPERBIT cfg)) t)
    as (s' & v & Hd & _ & Hf & Hs & Hi & _ & _ & _ & Hp & _).
  rewrite Hd, Hf, Hs, Hi, Hp, Tf, Ts, Ti, Tp. repeat split; auto.
Qed.

Lemma TxEvent_is_tick (e : TxEvent) : e = DacTick \/ e <> DacTick.
Proof. destruct e; [left; reflexivity | right; discriminate ..]. Qed.

(** The steps of [afsk_write] during a transmission leave it under way and
    do not touch the preamble counter. *)
Lemma preamble_write cfg e s :
  e <> DacTick ->
  sending s = true ->
  sending (tx_step cfg s e) = true /\
  dac_irq (tx_step cfg s e) = dac_irq s /\
  preamble_len (tx_step cfg s e) = preamble_len s /\
  (fifo_isempty (tx_fifo s) = false ->
   fifo_isempty (tx_fifo (tx_step cfg s e)) = false).
Proof.
  intros He Hs. destruct e as [|b| |]; [contradiction| | |]; cbn.
  - destruct (fifo_isfull (tx_fifo s)); [repeat split; auto|].
    cbn. repeat split; auto.
    unfold fifo_isempty, fifo_push. cbn.
    destruct (items (tx_fifo s)); [discriminate | reflexivity].
  - unfold tx_arm. rewrite Hs. cbn. repeat split; auto.
  - repeat split; auto.
Qed.

(** A tick that takes the preamble branch leaves HDLC_FLAG in [curr_out]:
    the branch stores it, it is not AX25_ESC, and neither the bit step nor
    the oscillator step touches it. *)
Lemma preamble_branch_flag cfg s :
  dac_irq s = true ->
  in_preamble_branch s = true ->
  curr_out (tx_step cfg s DacTick) = HDLC_FLAG.
Proof.
  intros Hirq Hb. unfold in_preamble_branch, dac_fetches in Hb.
  apply andb_true_iff in Hb. destruct Hb as [Hb Hp].
  apply andb_true_iff in Hb. destruct Hb as [Hb Hgo].
  apply andb_true_iff in Hb. destruct Hb as [Hsc Htb].
  apply Z.eqb_eq in Hsc, Htb.
  apply negb_true_iff in Hp, Hgo.
  unfold tx_step. rewrite Hirq, (dac_isr_at_fetch cfg s Hsc Htb).
  assert (Hfetch : exists t, dac_fetch s = Continue t /\
                             curr_out t = HDLC_FLAG).
  { unfold dac_fetch. rewrite Hgo.
    unfold dac_next_byte, dac_escape.
    destruct s as [sc co tb bs cnt acc inc q pl tl snd irq].
    cbn in Hp |- *.
    destruct bs; cbn; rewrite Hp; cbn;
      (eexists; split; [reflexivity | reflexivity]). }
  destruct Hfetch as (t & Hft & Hco). rewrite Hft.
  destruct (dac_dds_after_bit cfg (u8 (DAC_SAMPLEPERBIT cfg)) t)
    as (s' & v & Hd & Hc & _).
  rewrite Hd, Hc. exact Hco.
Qed.

(** Until the first octet of payload is fetched, the preamble flags sent
    so far and the flags still to send add up to what [afsk_txStart]
    stored. *)
Lemma preamble_count cfg : forall evs s,
  dac_irq s = true ->
  sending s = true ->
  fifo_isempty (tx_fifo s) = false ->
  0 <= preamble_len s < 65536 ->
  payload_fetched cfg evs s = false ->
  Z.of_nat (preamble_flags cfg evs s) + preamble_len (tx_run cfg evs s)
    = preamble_len s /\
  0 <= preamble_len (tx_run cfg evs s) /\
  dac_irq (tx_run cfg evs s) = true /\
  fifo_isempty (tx_fifo (tx_run cfg evs s)) = false.
Proof.
  induction evs as [|e evs IH]; intros s Hirq Hsend Hfifo Hpre Hnp.
  - cbn. repeat split; auto; lia.
  - cbn [payload_fetched] in Hnp. apply orb_false_iff in Hnp.
    destruct Hnp as [Hnow Hlater].
    cbn [preamble_flags tx_run fold_left].
    change (fold_left (tx_step cfg) evs (tx_step cfg s e))
      with (tx_run cfg evs (tx_step cfg s e)).
    destruct (TxEvent_is_tick e) as [-> | Hne].
    + assert (Hflag : (if dac_irq s && in_preamble_branch s
                          && Z.eqb (curr_out (tx_step cfg s DacTick))
                               HDLC_FLAG
                       then 1 else 0)%nat
                      = (if in_preamble_branch s then 1 else 0)%nat).
      { rewrite Hirq. cbn [andb].
        destruct (in_preamble_branch s) eqn:Eb; [|reflexivity].
        rewrite (preamble_branch_flag cfg s Hirq Eb), Z.eqb_refl.
        reflexivity. }
      rewrite Hflag. clear Hflag.
      rewrite Hirq in *. cbn [andb] in *.
      destruct (preamble_tick cfg s Hirq Hsend Hfifo Hpre Hnow)
        as (Hs' & Hi' & Hf' & Hp').
      assert (Hfifo' : fifo_isempty (tx_fifo (tx_step cfg s DacTick)) = false)
        by (rewrite Hf'; exact Hfifo).
      assert (Hpre' : 0 <= preamble_len (tx_step cfg s DacTick) < 65536).
      { rewrite Hp'. destruct (in_preamble_branch s) eqn:Eb; [|lia].
        unfold in_preamble_branch in Eb.
        apply andb_true_iff in Eb. destruct Eb as [_ Eb].
        apply negb_true_iff, Z.eqb_neq in Eb. lia. }
      destruct (IH _ Hi' Hs' Hfifo' Hpre' Hlater) as (Hsum & Hge & Hi & Hf).
      rewrite Hp' in Hsum.
      repeat split; auto.
      destruct (in_preamble_branch s); lia.
    + destruct (preamble_write cfg e s Hne Hsend) as (Hs' & Hi' & Hp' & Hf').
      assert (Hpre' : 0 <= preamble_len (tx_step cfg s e) < 65536)
        by (rewrite Hp'; exact Hpre).
      rewrite Hirq in Hi'.
      destruct (IH _ Hi' Hs' (Hf' Hfifo) Hpre' Hlater) as (Hsum & Hge & Hi & Hf).
      rewrite Hp' in Hsum.
      assert (Hzero : (match e with
                       | DacTick =>
                           if dac_irq s && in_preamble_branch s
                              && Z.eqb (curr_out (tx_step cfg s DacTick))
                                   HDLC_FLAG
                           then 1 else 0
                       | _ => 0
                       end = 0)%nat)
        by (destruct e; [contradiction | reflexivity ..]).
      rewrite Hzero. repeat split; auto.
Qed.

(** ** Timing of the preamble *)

Lemma bit_ticks_reload cfg :
  u8 (u8 (DAC_SAMPLEPERBIT cfg) - 1) = bit_ticks cfg - 1 /\
  0 < bit_ticks cfg <= 256.
Proof.
  unfold bit_ticks.
  pose proof (u8_range (DAC_SAMPLEPERBIT cfg)) as Hr.
  destruct (u8 (DAC_SAMPLEPERBIT cfg) =? 0) eqn:E.
  - apply Z.eqb_eq in E. rewrite E. split; [reflexivity | lia].
  - apply Z.eqb_neq in E. split; [apply u8_small; lia | lia].
Qed.

(** During the preamble every DAC tick brings the fetch of the first octet
    of payload one tick nearer, and that fetch happens when no tick is
    left. *)
Lemma preamble_tick_measure cfg s :
  in_preamble s ->
  (ticks_to_payload cfg s = 0 -> pops_payload s = true) /\
  (0 < ticks_to_payload cfg s ->
     pops_payload s = false /\
     in_preamble (tx_step cfg s DacTick) /\
     ticks_to_payload cfg (tx_step cfg s DacTick)
       = ticks_to_payload cfg s - 1).
Proof.
  intros (Hirq & Hsend & Hfifo & Hpre & Hsc & Hm & Hbs).
  destruct (bit_ticks_reload cfg) as [Hreload Hbt].
  unfold tx_step. rewrite Hirq.
  unfold ticks_to_payload, pops_payload, dac_fetches.
  rewrite Hfifo. cbn [andb negb]. rewrite !andb_true_r.
  unfold dac_isr.
  destruct (sample_count s =? 0) eqn:Esc.
  2:{ (* inside a bit *)
      apply Z.eqb_neq in Esc. cbn [andb].
      destruct (dac_dds_frame s)
        as (s' & v & Hd & _ & Fb & Fs & _ & _ & Ff & Fp & _ & Fsd & Fi & Fk).
      rewrite Hd.
      assert (Hidx : 0 <= 8 - mask_index (tx_bit s)).
      { unfold mask_index, is_mask in *.
        repeat destruct Hm as [Hm | Hm]; rewrite Hm; cbn; lia. }
      split; [intros Hz; nia|]. intros _.
      split; [reflexivity|].
      unfold in_preamble. rewrite Fb, Fs, Ff, Fp, Fsd, Fi, Fk.
      rewrite (u8_small (sample_count s - 1)) by lia.
      repeat split; auto; lia. }
  apply Z.eqb_eq in Esc. rewrite Esc. cbn [andb Z.add].
  unfold dac_bit_boundary.
  destruct (tx_bit s =? 0) eqn:Etb.
  - (* byte boundary *)
    apply Z.eqb_eq in Etb. rewrite Etb. cbn [andb].
    change (mask_index 0) with 8.
    destruct (preamble_len s =? 0) eqn:Ep.
    + apply Z.eqb_eq in Ep. rewrite Ep.
      split; [reflexivity | intros Hpos; lia].
    + apply Z.eqb_neq in Ep.
      split; [intros Hz; nia|]. intros _. split; [reflexivity|].
      assert (Hfetch : exists t,
                dac_fetch s = Continue t /\
                tx_fifo t = tx_fifo s /\ sending t = true /\
                dac_irq t = true /\ preamble_len t = preamble_len s - 1 /\
                tx_bit t = 1 /\ bit_stuff t = false).
      { clear Hbs Hm Hsc Esc Etb.
        destruct s as [sc co tb bs cnt acc inc q pl tl snd irq].
        cbn in *. subst snd irq.
        unfold dac_fetch, dac_next_byte, dac_escape. cbn.
        rewrite Hfifo. cbn.
        assert (E : (pl =? 0) = false) by (apply Z.eqb_neq; exact Ep).
        destruct bs; cbn; rewrite E; cbn;
          (eexists; split; [reflexivity|]; cbn;
           repeat split; try reflexivity; apply u16_small; lia). }
      destruct Hfetch as (t & Hft & Tf & Ts & Ti & Tp & Tb & Tbs).
      rewrite Hft.
      destruct (dac_dds_after_bit cfg (u8 (DAC_SAMPLEPERBIT cfg)) t)
        as (s' & v & Hd & _ & Hf & Hs & Hi & _ & _ & Hb & Hp & _ & Hk).
      rewrite Hd.
      assert (Hb2 : tx_bit (dac_bit cfg t) = 2 /\
                    bit_stuff (dac_bit cfg t) = false).
      { unfold dac_bit. rewrite Tbs, Tb. cbn [andb].
        destruct (negb (Z.land (curr_out t) 1 =? 0)); cbn;
          rewrite ?Tb, ?Tbs; split; reflexivity. }
      destruct Hb2 as [Hb2 Hbs2].
      assert (Hbs' : bit_stuff s' = false).
      { destruct (dac_dds_frame (set_sample_count (u8 (DAC_SAMPLEPERBIT cfg))
                                   (dac_bit cfg t)))
          as (s2 & v2 & Hd2 & _ & _ & Fbs & _).
        rewrite Hd in Hd2. injection Hd2 as <- <-.
        rewrite Fbs. cbn. exact Hbs2. }
      unfold in_preamble.
      rewrite Hf, Hs, Hi, Hb, Hp, Hk, Hb2, Tf, Ts, Ti, Tp, Hreload, Hbs'.
      change (mask_index 2) with 1.
      split; [|lia].
      repeat split; auto; try lia.
      unfold is_mask; auto.
  - (* bit boundary inside a flag *)
    apply Z.eqb_neq in Etb. cbn [andb].
    specialize (Hbs Etb).
    destruct (dac_dds_after_bit cfg (u8 (DAC_SAMPLEPERBIT cfg)) s)
      as (s' & v & Hd & _ & Hf & Hs & Hi & _ & _ & Hb & Hp & _ & Hk).
    rewrite Hd.
    assert (Hnext : tx_bit (dac_bit cfg s) = u8 (Z.shiftl (tx_bit s) 1) /\
                    bit_stuff (dac_bit cfg s) = false).
    { unfold dac_bit. rewrite Hbs. cbn [andb].
      destruct (negb (Z.land (curr_out s) (tx_bit s) =? 0)); cbn;
        rewrite ?Hbs; split; reflexivity. }
    destruct Hnext as [Hnext Hbs2].
    assert (Hbs' : bit_stuff s' = false).
    { destruct (dac_dds_frame (set_sample_count (u8 (DAC_SAMPLEPERBIT cfg))
                                 (dac_bit cfg s)))
        as (s2 & v2 & Hd2 & _ & _ & Fbs & _).
      rewrite Hd in Hd2. injection Hd2 as <- <-.
      rewrite Fbs. cbn. exact Hbs2. }
    assert (Hshift : is_mask (u8 (Z.shiftl (tx_bit s) 1)) /\
                     mask_index (u8 (Z.shiftl (tx_bit s) 1))
                       = mask_index (tx_bit s) + 1 /\
                     mask_index (tx_bit s) <= 7).
    { unfold is_mask, mask_index in *.
      destruct Hm as [Hm | Hm]; [contradiction|].
      repeat destruct Hm as [Hm | Hm]; rewrite Hm; cbn;
        repeat split; auto 10; lia. }
    destruct Hshift as (Hmask & Hidx & Hle).
    split; [intros Hz; nia|]. intros _. split; [reflexivity|].
    unfold in_preamble.
    rewrite Hf, Hs, Hi, Hb, Hp, Hk, Hnext, Hreload, Hbs', Hidx.
    split; [|lia].
    repeat split; auto; lia.
Qed.

(** Left alone, the transmitter needs exactly [ticks_to_payload] ticks to
    reach the fetch of the first octet of payload. *)
Lemma preamble_runs_out cfg : forall n s,
  in_preamble s ->
  ticks_to_payload cfg s = Z.of_nat n ->
  payload_fetched cfg (repeat DacTick n) s = false /\
  pops_payload (tx_run cfg (repeat DacTick n) s) = true.
Proof.
  induction n as [|n IH]; intros s Hin Hm.
  - destruct (preamble_tick_measure cfg s Hin) as [Hz _].
    cbn. split; [reflexivity | apply Hz; lia].
  - destruct (preamble_tick_measure cfg s Hin) as [_ Hpos].
    destruct Hpos as (Hnp & Hin' & Hm'); [lia|].
    destruct (IH (tx_step cfg s DacTick) Hin') as [Hf Hp]; [lia|].
    cbn [repeat payload_fetched tx_run fold_left].
    rewrite Hnp, andb_false_r. cbn [orb].
    split; [exact Hf | exact Hp].
Qed.

(** C2, as the code has it.  For a preamble length L of at least 0 whose
    rounded quotient fits the 16-bit counter (L * 1200 + 4000 below
    65536 * 8000, so that nothing overflows), [afsk_txStart] stores in
    [preamble_len] the quotient L * 1200 / 8000 rounded to the nearest
    integer (DIV_ROUND): the floor of the quotient, plus one when the
    remainder reaches 4000.  Every tick that takes the preamble branch
    leaves HDLC_FLAG in [curr_out].  In a transmission started with payload
    in the queue, the value stored is the number of ticks that have set
    [curr_out] to HDLC_FLAG through the preamble branch when the handler
    fetches the first octet of payload; started from a byte boundary and
    left to the DAC ticks, the handler gets to that fetch after eight bit
    periods per flag. *)
Theorem preamble_len_rounded (cfg : Config) (s0 : Tx) :
  let L := CONFIG_AFSK_PREAMBLE_LEN cfg in
  0 <= L ->
  L * BITRATE + 4000 < 65536 * 8000 ->
  sending s0 = false ->
  fifo_isempty (tx_fifo s0) = false ->
  let s1 := afsk_txStart cfg s0 in
  preamble_len s1 = DIV_ROUND (L * BITRATE) 8000 /\
  preamble_len s1 =
    L * 1200 / 8000 + (if 4000 <=? (L * 1200) mod 8000 then 1 else 0) /\
  (forall s,
      dac_irq s = true -> in_preamble_branch s = true ->
      curr_out (tx_step cfg s DacTick) = HDLC_FLAG) /\
  (forall evs,
      payload_fetched cfg evs s1 = false ->
      Z.of_nat (preamble_flags cfg evs s1) + preamble_len (tx_run cfg evs s1)
        = preamble_len s1 /\
      (pops_payload (tx_run cfg evs s1) = true ->
       Z.of_nat (preamble_flags cfg evs s1) = preamble_len s1)) /\
  (tx_bit s0 = 0 -> sample_count s0 = 0 ->
   let ticks := repeat DacTick
                  (Z.to_nat (8 * bit_ticks cfg * preamble_len s1)) in
   payload_fetched cfg ticks s1 = false /\
   pops_payload (tx_run cfg ticks s1) = true /\
   Z.of_nat (preamble_flags cfg ticks s1) = preamble_len s1).
Proof.
  intros L HL0 HLmax Hidle Hfifo s1.
  assert (Hfit : 0 <= DIV_ROUND (L * BITRATE) 8000 < 65536).
  { unfold DIV_ROUND. change (8000 / 2) with 4000.
    change BITRATE with 1200 in *.
    split.
    - apply Z.div_pos; lia.
    - apply Z.div_lt_upper_bound; lia. }
  assert (Hp : preamble_len s1 = DIV_ROUND (L * BITRATE) 8000).
  { unfold s1, afsk_txStart, tx_trailer, tx_arm, AFSK_DAC_IRQ_START.
    rewrite Hidle. cbn. fold L. apply u16_small. exact Hfit. }
  assert (Hs : sending s1 = true /\ dac_irq s1 = true /\
               tx_fifo s1 = tx_fifo s0 /\
               tx_bit s1 = tx_bit s0 /\ sample_count s1 = sample_count s0).
  { unfold s1, afsk_txStart, tx_trailer, tx_arm, AFSK_DAC_IRQ_START.
    rewrite Hidle. cbn. repeat split; reflexivity. }
  destruct Hs as (Hsend & Hirq & Hq & Htb & Hsc).
  assert (Hr : 0 <= preamble_len s1 < 65536)
    by (rewrite Hp; exact Hfit).
  assert (Hf1 : fifo_isempty (tx_fifo s1) = false)
    by (rewrite Hq; exact Hfifo).
  assert (Hcount : forall evs,
            payload_fetched cfg evs s1 = false ->
            Z.of_nat (preamble_flags cfg evs s1)
              + preamble_len (tx_run cfg evs s1) = preamble_len s1 /\
            (pops_payload (tx_run cfg evs s1) = true ->
             Z.of_nat (preamble_flags cfg evs s1) = preamble_len s1)).
  { intros evs Hnp.
    destruct (preamble_count cfg evs s1 Hirq Hsend Hf1 Hr Hnp)
      as (Hsum & Hge & _ & _).
    split; [exact Hsum|].
    intros Hpop. unfold pops_payload in Hpop.
    apply andb_true_iff in Hpop. destruct Hpop as [Hpop _].
    apply andb_true_iff in Hpop. destruct Hpop as [_ Hz].
    apply Z.eqb_eq in Hz. lia. }
  split; [exact Hp|]. split.
  { rewrite Hp, DIV_ROUND_8000. reflexivity. }
  split; [intros s; apply preamble_branch_flag|].
  split; [exact Hcount|].
  intros Hb0 Hc0 ticks.
  destruct (bit_ticks_reload cfg) as [_ Hbt].
  assert (Hin : in_preamble s1).
  { unfold in_preamble. rewrite Htb, Hsc, Hb0, Hc0.
    repeat split; auto; try lia;
      solve [unfold is_mask; auto | intros H; contradiction]. }
  assert (Hm : ticks_to_payload cfg s1
               = Z.of_nat (Z.to_nat (8 * bit_ticks cfg * preamble_len s1))).
  { unfold ticks_to_payload. rewrite Htb, Hsc, Hb0, Hc0.
    change (mask_index 0) with 8. rewrite Z2Nat.id by nia. lia. }
  destruct (preamble_runs_out cfg _ s1 Hin Hm) as [Hnf Hpop].
  fold ticks in Hnf, Hpop.
  split; [exact Hnf|]. split; [exact Hpop|].
  exact (proj2 (Hcount ticks Hnf) Hpop).
Qed.

Lemma preamble_len_rounded_witness :
  0 <= CONFIG_AFSK_PREAMBLE_LEN cfg_5ms /\
  CONFIG_AFSK_PREAMBLE_LEN cfg_5ms * BITRATE + 4000 < 65536 * 8000 /\
  sending (tx_one_octet_queued cfg_5ms) = false /\
  fifo_isempty (tx_fifo (tx_one_octet_queued cfg_5ms)) = false /\
  tx_bit (tx_one_octet_queued cfg_5ms) = 0 /\
  sample_count (tx_one_octet_queued cfg_5ms) = 0 /\
  preamble_len (afsk_txStart cfg_5ms (tx_one_octet_queued cfg_5ms))
    = DIV_ROUND (CONFIG_AFSK_PREAMBLE_LEN cfg_5ms * BITRATE) 8000 /\
  pops_payload
    (tx_run cfg_5ms
       (repeat DacTick
          (Z.to_nat (8 * bit_ticks cfg_5ms
                     * preamble_len (afsk_txStart cfg_5ms
                                       (tx_one_octet_queued cfg_5ms)))))
       (afsk_txStart cfg_5ms (tx_one_octet_queued cfg_5ms))) = true /\
  Z.of_nat
    (preamble_flags cfg_5ms
       (repeat DacTick
          (Z.to_nat (8 * bit_ticks cfg_5ms
                     * preamble_len (afsk_txStart cfg_5ms
                                       (tx_one_octet_queued cfg_5ms)))))
       (afsk_txStart cfg_5ms (tx_one_octet_queued cfg_5ms)))
  = preamble_len (afsk_txStart cfg_5ms (tx_one_octet_queued cfg_5ms)).
Proof.
  assert (H0 : 0 <= CONFIG_AFSK_PREAMBLE_LEN cfg_5ms)
    by (vm_compute; discriminate).
  assert (Hmax : CONFIG_AFSK_PREAMBLE_LEN cfg_5ms * BITRATE + 4000
                 < 65536 * 8000)
    by (vm_compute; reflexivity).
  assert (H1 : sending (tx_one_octet_queued cfg_5ms) = false)
    by (vm_compute; reflexivity).
  assert (H2 : fifo_isempty (tx_fifo (tx_one_octet_queued cfg_5ms)) = false)
    by (vm_compute; reflexivity).
  assert (H3 : tx_bit (tx_one_octet_queued cfg_5ms) = 0)
    by (vm_compute; reflexivity).
  assert (H4 : sample_count (tx_one_octet_queued cfg_5ms) = 0)
    by (vm_compute; reflexivity).
  split; [exact H0|]. split; [exact Hmax|].
  split; [exact H1|]. split; [exact H2|]. split; [exact H3|].
  split; [exact H4|].
  destruct (preamble_len_rounded cfg_5ms (tx_one_octet_queued cfg_5ms)
              H0 Hmax H1 H2)
    as (Hp & _ & _ & _ & Hrun).
  split; [exact Hp|].
  exact (proj2 (Hrun H3 H4)).
Defined.

(** C2 as stated fails: with 5 ms of preamble the quotient 6000 / 8000 has
    floor 0, yet [afsk_txStart] stores 1 and one flag goes out through the
    preamble branch before the first octet of payload is fetched. *)
Lemma preamble_len_not_floor :
  CONFIG_AFSK_PREAMBLE_LEN cfg_5ms * 1200 / 8000 = 0 /\
  preamble_len (afsk_txStart cfg_5ms (tx_one_octet_queued cfg_5ms)) = 1 /\
  preamble_len (afsk_txStart cfg_5ms (tx_one_octet_queued cfg_5ms))
    <> CONFIG_AFSK_PREAMBLE_LEN cfg_5ms * 1200 / 8000 /\
  payload_fetched cfg_5ms (repeat DacTick 64)
    (afsk_txStart cfg_5ms (tx_one_octet_queued cfg_5ms)) = false /\
  pops_payload
    (tx_run cfg_5ms (repeat DacTick 64)
       (afsk_txStart cfg_5ms (tx_one_octet_queued cfg_5ms))) = true /\
  Z.of_nat (preamble_flags cfg_5ms (repeat DacTick 64)
              (afsk_txStart cfg_5ms (tx_one_octet_queued cfg_5ms)))
    <> CONFIG_AFSK_PREAMBLE_LEN cfg_5ms * 1200 / 8000.
Proof.
  vm_compute. repeat split; try reflexivity; discriminate.
Qed.

(** ** HDLC deframer *)

(** The bit just shifted into [demod_bits] is its bit 0. *)
Lemma demod_low_bit (d : Z) (bit : bool) :
  (Z.land (Z.lor (u8 (Z.shiftl d 1)) (if bit then 1 else 0)) 1 =? 0)
  = negb bit.
Proof.
  change 1 with (Z.ones 1) at 3. rewrite Z.land_ones by lia.
  change (2 ^ 1) with 2. rewrite <- Z.bit0_mod, Z.lor_spec.
  unfold u8. change 256 with (2 ^ 8).
  rewrite Z.mod_pow2_bits_low by lia.
  rewrite Z.shiftl_spec_low by lia.
  destruct bit; reflexivity.
Qed.

Lemma hdlc_special_eqb c :
  (c =? HDLC_FLAG) || (c =? HDLC_RESET) || (c =? AX25_ESC) = true
  <-> hdlc_special c.
Proof.
  unfold hdlc_special.
  rewrite !orb_true_iff, !Z.eqb_eq. tauto.
Qed.

Lemma fifo_push_twice q a b :
  items (fifo_push (fifo_push q a) b) = items q ++ [u8 a; u8 b].
Proof.
  unfold fifo_push. cbn. rewrite <- app_assoc. reflexivity.
Qed.

(** C5. With a frame open, when the bit that completes an octet is
    accepted: an octet equal to HDLC_FLAG, HDLC_RESET or AX25_ESC is
    preceded by AX25_ESC in the RX queue; each of the pushes is skipped on a
    full queue, which closes the frame; the accumulator and the bit index
    are reset in all cases. *)
Theorem hdlc_parse_octet (bit : bool) (s : Rx) :
  let demod := Z.lor (u8 (Z.shiftl (demod_bits s) 1)) (if bit then 1 else 0) in
  let c := if bit then u8 (Z.lor (hdlc_currchar s) 0x80)
           else hdlc_currchar s in
  let q := rx_fifo s in
  let s' := hdlc_parse bit s in
  demod <> HDLC_FLAG ->
  Z.land demod HDLC_RESET <> HDLC_RESET ->
  hdlc_rxstart s = true ->
  Z.land demod 0x3f <> 0x3e ->
  8 <= u8 (hdlc_bit_idx s + 1) ->
  hdlc_currchar s' = 0 /\ hdlc_bit_idx s' = 0 /\
  (hdlc_special c ->
     (fifo_isfull q = true ->
        rx_fifo s' = q /\ hdlc_rxstart s' = false) /\
     (fifo_isfull q = false -> fifo_isfull (fifo_push q AX25_ESC) = true ->
        items (rx_fifo s') = items q ++ [AX25_ESC] /\
        hdlc_rxstart s' = false) /\
     (fifo_isfull q = false -> fifo_isfull (fifo_push q AX25_ESC) = false ->
        items (rx_fifo s') = items q ++ [AX25_ESC; u8 c] /\
        hdlc_rxstart s' = true)) /\
  (~ hdlc_special c ->
     (fifo_isfull q = true ->
        rx_fifo s' = q /\ hdlc_rxstart s' = false) /\
     (fifo_isfull q = false ->
        items (rx_fifo s') = items q ++ [u8 c] /\
        hdlc_rxstart s' = true)).
Proof.
  destruct s as [dly q x0 x1 y0 y1 sb fb db ph start cc idx].
  cbn [demod_bits hdlc_currchar rx_fifo hdlc_rxstart hdlc_bit_idx].
  intros Hflag Hreset Hstart Hstuff Hidx.
  unfold hdlc_parse.
  cbn [demod_bits set_demod_bits hdlc_rxstart rx_fifo].
  apply Z.eqb_neq in Hflag, Hreset, Hstuff.
  rewrite Hflag, Hreset, Hstuff. subst start. cbn [negb].
  rewrite demod_low_bit, negb_involutive.
  assert (Hge : (u8 (idx + 1) >=? 8) = true) by (apply Z.geb_le; lia).
  assert (Hbyte : exists c, (if bit then u8 (Z.lor cc 128) else cc) = c)
    by (eexists; reflexivity).
  destruct Hbyte as (c & Hc).
  destruct bit; rx_simpl; rewrite Hge; rewrite Hc;
    (destruct ((c =? HDLC_FLAG) || (c =? HDLC_RESET) || (c =? AX25_ESC))
       eqn:Esp;
     [ apply hdlc_special_eqb in Esp
     | assert (Hns : ~ hdlc_special c)
         by (rewrite <- hdlc_special_eqb, Esp; discriminate) ];
     (destruct (fifo_isfull q) eqn:Efull; rx_simpl;
      try rewrite Efull; rx_simpl;
      try (destruct (fifo_isfull (fifo_push q AX25_ESC)) eqn:Efull2;
           rx_simpl);
      repeat split; intros;
      try reflexivity; try contradiction; try discriminate;
      try apply fifo_push_twice)).
Qed.

Lemma hdlc_parse_octet_witness :
  hdlc_rxstart rx_seven_bits = true /\
  8 <= u8 (hdlc_bit_idx rx_seven_bits + 1) /\
  hdlc_special (hdlc_currchar rx_seven_bits) /\
  fifo_isfull (fifo_push (rx_fifo rx_seven_bits) AX25_ESC) = false /\
  items (rx_fifo (hdlc_parse false rx_seven_bits)) =
    items (rx_fifo rx_seven_bits) ++
    [AX25_ESC; u8 (hdlc_currchar rx_seven_bits)] /\
  hdlc_rxstart (hdlc_parse false rx_seven_bits) = true.
Proof.
  assert (H1 : Z.lor (u8 (Z.shiftl (demod_bits rx_seven_bits) 1)) 0
               <> HDLC_FLAG) by (vm_compute; discriminate).
  assert (H2 : Z.land (Z.lor (u8 (Z.shiftl (demod_bits rx_seven_bits) 1)) 0)
                 HDLC_RESET <> HDLC_RESET) by (vm_compute; discriminate).
  assert (H3 : hdlc_rxstart rx_seven_bits = true) by (vm_compute; reflexivity).
  assert (H4 : Z.land (Z.lor (u8 (Z.shiftl (demod_bits rx_seven_bits) 1)) 0)
                 0x3f <> 0x3e) by (vm_compute; discriminate).
  assert (H5 : 8 <= u8 (hdlc_bit_idx rx_seven_bits + 1))
    by (vm_compute; discriminate).
  assert (H6 : hdlc_special (hdlc_currchar rx_seven_bits))
    by (right; right; vm_compute; reflexivity).
  assert (H7 : fifo_isfull (rx_fifo rx_seven_bits) = false)
    by (vm_compute; reflexivity).
  assert (H8 : fifo_isfull (fifo_push (rx_fifo rx_seven_bits) AX25_ESC)
               = false) by (vm_compute; reflexivity).
  split; [exact H3|]. split; [exact H5|]. split; [exact H6|].
  split; [exact H8|].
  destruct (hdlc_parse_octet false rx_seven_bits H1 H2 H3 H4 H5)
    as (_ & _ & Hsp & _).
  destruct (Hsp H6) as (_ & _ & Hpush).
  exact (Hpush H7 H8).
Defined.

(** ** ADC tick: bit decision *)

(** The test on the three low bits of [sampled_bits] is a majority vote. *)
Lemma majority_vote (x : Z) :
  let bits := Z.land x 0x07 in
  (bits =? 0x07) || (bits =? 0x06) || (bits =? 0x05) || (bits =? 0x03)
  = majority3 (Z.testbit x 2) (Z.testbit x 1) (Z.testbit x 0).
Proof.
  intros bits.
  assert (Hb : forall i, 0 <= i < 3 -> Z.testbit x i = Z.testbit bits i).
  { intros i Hi. unfold bits. rewrite Z.land_spec.
    replace (Z.testbit 7 i) with true; [now rewrite andb_true_r|].
    assert (i = 0 \/ i = 1 \/ i = 2) as [-> | [-> | ->]] by lia;
      reflexivity. }
  rewrite (Hb 0), (Hb 1), (Hb 2) by lia.
  assert (Hr : 0 <= bits < Z.of_nat 8).
  { unfold bits. change 7 with (Z.ones 3). rewrite Z.land_ones by lia.
    apply Z.mod_pos_bound. reflexivity. }
  pose (P := fun y =>
     Bool.eqb ((y =? 7) || (y =? 6) || (y =? 5) || (y =? 3))
              (majority3 (Z.testbit y 2) (Z.testbit y 1) (Z.testbit y 0))).
  assert (Hall : forallb P (map Z.of_nat (seq 0 8)) = true)
    by (vm_compute; reflexivity).
  pose proof (forallb_below P 8 Hall bits Hr) as H. subst P.
  cbv beta in H. now apply eqb_prop in H.
Qed.

Lemma majority_vote_eq (x : Z) :
  (Z.land x 0x07 =? 0x07) || (Z.land x 0x07 =? 0x06)
  || (Z.land x 0x07 =? 0x05) || (Z.land x 0x07 =? 0x03)
  = majority3 (Z.testbit x 2) (Z.testbit x 1) (Z.testbit x 0).
Proof. exact (majority_vote x). Qed.

(** No edge between the two most recent bits: they are equal. *)
Lemma no_edge_iff_equal (f : Z) :
  (EDGE_FOUND f =? 0) = Bool.eqb (Z.testbit f 0) (Z.testbit f 1).
Proof.
  unfold EDGE_FOUND, BIT_DIFFER.
  change 1 with (Z.ones 1) at 2. rewrite Z.land_ones by lia.
  change (2 ^ 1) with 2. rewrite <- Z.bit0_mod, Z.lxor_spec.
  rewrite Z.shiftr_spec by lia. change (0 + 1) with 1.
  destruct (Z.testbit f 0), (Z.testbit f 1); reflexivity.
Qed.

Lemma adc_sync_int8 s : -128 <= curr_phase (adc_sync s) < 128.
Proof. unfold adc_sync. cbn [curr_phase set_curr_phase]. apply s8_range. Qed.

(** C6. On an ADC tick whose phase reaches PHASE_MAX, the phase is reduced
    modulo PHASE_MAX, the majority of the three most recent sampled bits is
    shifted into [found_bits], and exactly one bit goes to [hdlc_parse]: 1
    when the two most recent found bits are equal, 0 otherwise.  A tick
    whose phase stays below PHASE_MAX delivers no bit. *)
Theorem adc_isr_bit_decision (cfg : Config) (adc : Z) (s : Rx) :
  let s1 := adc_sync (adc_filter cfg adc s) in
  (PHASE_MAX <= curr_phase s1 ->
   exists s2 bit,
     adc_demod cfg adc s = (s2, Some bit) /\
     adc_isr cfg s adc = hdlc_parse bit s2 /\
     curr_phase s2 = curr_phase s1 mod PHASE_MAX /\
     found_bits s2 =
       Z.lor (u8 (Z.shiftl (found_bits s1) 1))
             (b2z (majority3 (Z.testbit (sampled_bits s1) 2)
                             (Z.testbit (sampled_bits s1) 1)
                             (Z.testbit (sampled_bits s1) 0))) /\
     bit = Bool.eqb (Z.testbit (found_bits s2) 0)
                    (Z.testbit (found_bits s2) 1)) /\
  (curr_phase s1 < PHASE_MAX ->
   adc_demod cfg adc s = (s1, None) /\ adc_isr cfg s adc = s1).
Proof.
  intros s1.
  pose proof (adc_sync_int8 (adc_filter cfg adc s)) as Hr. fold s1 in Hr.
  unfold adc_isr, adc_demod. fold s1. clearbody s1.
  destruct s1 as [dly q x0 x1 y0 y1 sb fb db ph start cc idx].
  unfold adc_sample. rx_simpl.
  change PHASE_MAX with 64 in *.
  split.
  - intros Hge.
    assert (E : (ph >=? 64) = true) by (apply Z.geb_le; lia).
    rewrite E.
    assert (Hrem : s8 (Z.rem ph 64) = ph mod 64).
    { rewrite Z.rem_mod_nonneg by lia.
      pose proof (Z.mod_pos_bound ph 64 ltac:(lia)).
      apply s8_small. lia. }
    cbv zeta. rx_simpl. rewrite majority_vote_eq, Hrem.
    destruct (majority3 (Z.testbit sb 2) (Z.testbit sb 1) (Z.testbit sb 0));
      rx_simpl; unfold b2z; rewrite ?Z.lor_0_r;
      eexists; eexists;
      (split; [reflexivity|]); rx_simpl;
      repeat split; try reflexivity; apply no_edge_iff_equal.
  - intros Hlt.
    assert (E : (ph >=? 64) = false)
      by (rewrite Z.geb_leb; apply Z.leb_gt; lia).
    rewrite E. split; reflexivity.
Qed.

Lemma adc_isr_bit_decision_witness :
  PHASE_MAX <= curr_phase (adc_sync (adc_filter cfg_short 0 rx_seven_samples)) /\
  exists s2 bit,
    adc_demod cfg_short 0 rx_seven_samples = (s2, Some bit) /\
    adc_isr cfg_short rx_seven_samples 0 = hdlc_parse bit s2 /\
    curr_phase s2 =
      curr_phase (adc_sync (adc_filter cfg_short 0 rx_seven_samples))
      mod PHASE_MAX /\
    found_bits s2 =
      Z.lor (u8 (Z.shiftl
                   (found_bits
                      (adc_sync (adc_filter cfg_short 0 rx_seven_samples))) 1))
            (b2z (majority3
                    (Z.testbit (sampled_bits
                       (adc_sync (adc_filter cfg_short 0 rx_seven_samples))) 2)
                    (Z.testbit (sampled_bits
                       (adc_sync (adc_filter cfg_short 0 rx_seven_samples))) 1)
                    (Z.testbit (sampled_bits
                       (adc_sync (adc_filter cfg_short 0 rx_seven_samples))) 0))) /\
    bit = Bool.eqb (Z.testbit (found_bits s2) 0)
                   (Z.testbit (found_bits s2) 1).
Proof.
  assert (H : PHASE_MAX <=
              curr_phase (adc_sync (adc_filter cfg_short 0 rx_seven_samples)))
    by (vm_compute; discriminate).
  split; [exact H|].
  exact (proj1 (adc_isr_bit_decision cfg_short 0 rx_seven_samples) H).
Defined.

(** ** Endpoint: a read on a silent line *)

Lemma world_tick_silent w :
  fifo_isempty (w_rx w) = true ->
  (forall n, snd (w_future w n) = None) ->
  fifo_isempty (w_rx (world_tick w)) = true /\
  (forall n, snd (w_future (world_tick w) n) = None).
Proof.
  intros Hempty Hsilent. unfold world_tick.
  specialize (Hsilent (w_now w)) as Hnow.
  destruct (w_future w (w_now w)) as [dt arrival]. cbn in Hnow. subst arrival.
  cbn. split; assumption.
Qed.

Lemma wait_nonempty_silent fuel : forall w,
  fifo_isempty (w_rx w) = true ->
  (forall n, snd (w_future w n) = None) ->
  wait_nonempty fuel w = None.
Proof.
  induction fuel as [|fuel IH]; intros w Hempty Hsilent; cbn.
  - reflexivity.
  - rewrite Hempty.
    destruct (world_tick_silent w Hempty Hsilent) as [He Hs].
    apply IH; assumption.
Qed.

(** C1 (what the code does instead).  With a positive timeout, a read of at
    least one octet on an empty RX queue into which nothing is ever pushed
    never returns, whatever the timer does: the loop
    [while (fifo_isempty_locked(&rx_fifo));] has an empty body, and the
    comparison with the timeout sits after it. *)
Theorem afsk_read_spins_on_silent_line
  (cfg : Config) (fuel size : nat) (buf : list Z) (w : World) :
  0 < CONFIG_AFSK_RXTIMEOUT cfg ->
  fifo_isempty (w_rx w) = true ->
  (forall n, snd (w_future w n) = None) ->
  afsk_read cfg fuel (S size) buf w = None.
Proof.
  intros Hto Hempty Hsilent. cbn [afsk_read].
  assert (E : (CONFIG_AFSK_RXTIMEOUT cfg =? 0) = false)
    by (apply Z.eqb_neq; lia).
  rewrite E. cbn [andb].
  rewrite (wait_nonempty_silent fuel w Hempty Hsilent). reflexivity.
Qed.

Lemma afsk_read_spins_on_silent_line_witness :
  0 < CONFIG_AFSK_RXTIMEOUT cfg_short /\
  fifo_isempty (w_rx silent_world) = true /\
  afsk_read cfg_short 1000 1 [] silent_world = None.
Proof.
  assert (H1 : 0 < CONFIG_AFSK_RXTIMEOUT cfg_short) by reflexivity.
  assert (H2 : fifo_isempty (w_rx silent_world) = true) by reflexivity.
  split; [exact H1|]. split; [exact H2|].
  exact (afsk_read_spins_on_silent_line cfg_short 1000 0 [] silent_world
           H1 H2 (fun _ => eq_refl)).
Defined.

(** The same read when an octet does arrive: within the timeout it is
    returned; after the timeout the call comes back, but only once the
    octet is there, and leaves it in the queue. *)
Example afsk_read_octet_in_time :
  match afsk_read cfg_short 1000 1 [] (world_with_arrival 3) with
  | Some (buf, w) => buf = [0x41] /\ items (w_rx w) = []
  | None => False
  end.
Proof. vm_compute. split; reflexivity. Qed.

Example afsk_read_octet_late :
  match afsk_read cfg_short 1000 1 [] (world_with_arrival 200) with
  | Some (buf, w) => buf = [] /\ items (w_rx w) = [0x41] /\ w_clock w = 202
  | None => False
  end.
Proof. vm_compute. repeat split; reflexivity. Qed.

(** * Further properties *)

(** ** The deframer and the RX queue *)

Ltac solve_appended :=
  first
    [ exists []; split; [now rewrite app_nil_r|]
    | eexists [_]; split; [reflexivity|]
    | eexists [_; _]; split; [now rewrite <- app_assoc|] ].

(** Boolean tests on lengths and flags, as propositions. *)
Ltac bool_hyps :=
  repeat match goal with
         | H : negb _ = true |- _ => apply negb_true_iff in H
         | H : negb _ = false |- _ => apply negb_false_iff in H
         | H : (_ <=? _)%nat = true |- _ => apply Nat.leb_le in H
         | H : (_ <=? _)%nat = false |- _ => apply Nat.leb_gt in H
         end;
  rewrite ?length_app in *; cbn [length] in *.

(** ** Runs, one step at a time *)

Lemma fold_left_cons {A B : Type} (f : A -> B -> A) b l a :
  fold_left f (b :: l) a = fold_left f l (f a b).
Proof. reflexivity. Qed.

Lemma rx_run_cons cfg a l s :
  rx_run cfg (a :: l) s = rx_run cfg l (adc_isr cfg s a).
Proof. unfold rx_run. apply fold_left_cons. Qed.

Lemma fold_left_snoc {A B : Type} (f : A -> B -> A) l b a :
  fold_left f (l ++ [b]) a = f (fold_left f l a) b.
Proof. rewrite fold_left_app. reflexivity. Qed.

Lemma hdlc_run_cons b l s :
  hdlc_run (b :: l) s = hdlc_run l (hdlc_parse b s).
Proof. exact (fold_left_cons (fun s b => hdlc_parse b s) b l s). Qed.

Lemma hdlc_run_snoc l b s :
  hdlc_run (l ++ [b]) s = hdlc_parse b (hdlc_run l s).
Proof. exact (fold_left_snoc (fun s b => hdlc_parse b s) l b s). Qed.

(** One bit through the deframer: the RX queue only grows, at its tail, by
    at most two octets, and never beyond its capacity; with no frame open
    it can only grow by a flag, and a frame is only opened by pushing a
    flag. *)
Lemma hdlc_parse_queue bit s :
  exists l,
    items (rx_fifo (hdlc_parse bit s)) = items (rx_fifo s) ++ l /\
    capacity (rx_fifo (hdlc_parse bit s)) = capacity (rx_fifo s) /\
    (length l <= 2)%nat /\
    (l <> [] -> fifo_isfull (rx_fifo s) = false) /\
    (fifo_ok (rx_fifo s) -> fifo_ok (rx_fifo (hdlc_parse bit s))) /\
    (hdlc_rxstart s = false -> l = [] \/ l = [HDLC_FLAG]) /\
    (hdlc_rxstart s = false -> hdlc_rxstart (hdlc_parse bit s) = true ->
     l = [HDLC_FLAG]).
Proof.
  destruct s as [dly q x0 x1 y0 y1 sb fb db ph start cc idx].
  destruct q as [its cap].
  unfold hdlc_parse, fifo_ok, fifo_isfull, fifo_push.
  cbn -[Z.shiftl Z.shiftr Z.land Z.lor u8].
  repeat (break_if; cbn -[Z.shiftl Z.shiftr Z.land Z.lor u8] in * );
    solve_appended; bool_hyps;
    repeat split; cbn; intros; subst; bool_hyps;
    auto; try lia; try discriminate; try congruence;
    try (apply Nat.leb_gt; lia).
Qed.

(** The demodulator stages leave the deframer and the RX queue alone. *)
Lemma adc_demod_deframer cfg adc s :
  rx_fifo (fst (adc_demod cfg adc s)) = rx_fifo s /\
  hdlc_rxstart (fst (adc_demod cfg adc s)) = hdlc_rxstart s /\
  hdlc_currchar (fst (adc_demod cfg adc s)) = hdlc_currchar s /\
  hdlc_bit_idx (fst (adc_demod cfg adc s)) = hdlc_bit_idx s /\
  demod_bits (fst (adc_demod cfg adc s)) = demod_bits s.
Proof.
  unfold adc_demod.
  assert (Hf : rx_fifo (adc_filter cfg adc s) = rx_fifo s /\
               hdlc_rxstart (adc_filter cfg adc s) = hdlc_rxstart s /\
               hdlc_currchar (adc_filter cfg adc s) = hdlc_currchar s /\
               hdlc_bit_idx (adc_filter cfg adc s) = hdlc_bit_idx s /\
               demod_bits (adc_filter cfg adc s) = demod_bits s).
  { unfold adc_filter, fifo_pop.
    destruct (CONFIG_AFSK_FILTER cfg); repeat split; reflexivity. }
  revert Hf. generalize (adc_filter cfg adc s). intros f Hf.
  assert (Hs : rx_fifo (adc_sync f) = rx_fifo f /\
               hdlc_rxstart (adc_sync f) = hdlc_rxstart f /\
               hdlc_currchar (adc_sync f) = hdlc_currchar f /\
               hdlc_bit_idx (adc_sync f) = hdlc_bit_idx f /\
               demod_bits (adc_sync f) = demod_bits f).
  { unfold adc_sync. repeat break_if; repeat split; reflexivity. }
  revert Hs. generalize (adc_sync f). intros g Hs.
  assert (Hg : rx_fifo (fst (adc_sample g)) = rx_fifo g /\
               hdlc_rxstart (fst (adc_sample g)) = hdlc_rxstart g /\
               hdlc_currchar (fst (adc_sample g)) = hdlc_currchar g /\
               hdlc_bit_idx (fst (adc_sample g)) = hdlc_bit_idx g /\
               demod_bits (fst (adc_sample g)) = demod_bits g).
  { unfold adc_sample. repeat break_if; repeat split; reflexivity. }
  destruct Hf as (F1 & F2 & F3 & F4 & F5).
  destruct Hs as (S1 & S2 & S3 & S4 & S5).
  destruct Hg as (G1 & G2 & G3 & G4 & G5).
  repeat split; congruence.
Qed.

(** One ADC tick, seen from the RX queue: what [hdlc_parse_queue] says of
    one bit. *)
Lemma adc_isr_queue cfg s adc :
  exists l,
    items (rx_fifo (adc_isr cfg s adc)) = items (rx_fifo s) ++ l /\
    capacity (rx_fifo (adc_isr cfg s adc)) = capacity (rx_fifo s) /\
    (length l <= 2)%nat /\
    (fifo_ok (rx_fifo s) -> fifo_ok (rx_fifo (adc_isr cfg s adc))) /\
    (hdlc_rxstart s = false -> l = [] \/ l = [HDLC_FLAG]) /\
    (hdlc_rxstart s = false -> hdlc_rxstart (adc_isr cfg s adc) = true ->
     l = [HDLC_FLAG]).
Proof.
  unfold adc_isr.
  destruct (adc_demod_deframer cfg adc s) as (Hq & Hst & _).
  destruct (adc_demod cfg adc s) as [d [bit|]]; cbn [fst] in *.
  - destruct (hdlc_parse_queue bit d) as (l & Hi & Hc & Hl & _ & Hok & Ho & Hn).
    exists l. rewrite Hq, Hst in *. repeat split; assumption.
  - exists []. rewrite Hq, Hst, app_nil_r.
    repeat split; auto. intros H1 H2. congruence.
Qed.

(** X1. The RX queue never holds more than its capacity, whatever is
    received. *)
Theorem rx_queue_never_overflows (cfg : Config) (samples : list Z) (s : Rx) :
  fifo_ok (rx_fifo s) ->
  fifo_ok (rx_fifo (rx_run cfg samples s)) /\
  capacity (rx_fifo (rx_run cfg samples s)) = capacity (rx_fifo s).
Proof.
  revert s. induction samples as [|a l IH]; intros s Hok.
  - split; [exact Hok | reflexivity].
  - rewrite rx_run_cons.
    destruct (adc_isr_queue cfg s a) as (l1 & _ & Hc & _ & Hok' & _).
    destruct (IH (adc_isr cfg s a) (Hok' Hok)) as [H1 H2].
    split; [exact H1 | rewrite H2; exact Hc].
Qed.

Lemma rx_queue_never_overflows_witness :
  fifo_ok (rx_fifo (rx_init cfg_short)) /\
  fifo_ok (rx_fifo (rx_run cfg_short [10; -20; 30] (rx_init cfg_short))).
Proof.
  assert (H : fifo_ok (rx_fifo (rx_init cfg_short)))
    by (unfold fifo_ok; cbn; lia).
  split; [exact H|].
  exact (proj1 (rx_queue_never_overflows cfg_short [10; -20; 30]
                  (rx_init cfg_short) H)).
Defined.

(** X2. The receive handler only appends to the RX queue: what was queued stays
    queued, in place, and at most two octets are added per sample. *)
Theorem rx_queue_append_only (cfg : Config) (samples : list Z) (s : Rx) :
  exists l,
    items (rx_fifo (rx_run cfg samples s)) = items (rx_fifo s) ++ l /\
    (length l <= 2 * length samples)%nat.
Proof.
  revert s. induction samples as [|a r IH]; intros s.
  - exists []. split; [now rewrite app_nil_r | cbn; lia].
  - rewrite rx_run_cons.
    destruct (adc_isr_queue cfg s a) as (l1 & H1 & _ & Hl1 & _).
    destruct (IH (adc_isr cfg s a)) as (l2 & H2 & Hl2).
    exists (l1 ++ l2). rewrite H2, H1.
    split; [now rewrite app_assoc|].
    rewrite length_app. cbn [length]. lia.
Qed.

(** X3. From initialisation on, the first octet that reaches the RX queue is a
    frame delimiter. *)
Theorem rx_stream_starts_with_flag (cfg : Config) (samples : list Z) :
  match items (rx_fifo (rx_run cfg samples (rx_init cfg))) with
  | [] => True
  | c :: _ => c = HDLC_FLAG
  end.
Proof.
  assert (Hinv : forall l s,
            (hdlc_rxstart s = true -> items (rx_fifo s) <> []) ->
            (forall c r, items (rx_fifo s) = c :: r -> c = HDLC_FLAG) ->
            forall c r, items (rx_fifo (rx_run cfg l s)) = c :: r ->
                        c = HDLC_FLAG).
  { induction l as [|a l IH]; intros s Hst Hhd.
    - exact Hhd.
    - rewrite rx_run_cons.
      apply IH.
      + destruct (adc_isr_queue cfg s a) as (l1 & H1 & _ & _ & _ & _ & Hn).
        intros Ht. rewrite H1.
        destruct (hdlc_rxstart s) eqn:Es.
        * specialize (Hst eq_refl).
          destruct (items (rx_fifo s)); [contradiction | discriminate].
        * rewrite (Hn eq_refl Ht).
          destruct (items (rx_fifo s)); discriminate.
      + destruct (adc_isr_queue cfg s a) as (l1 & H1 & _ & _ & _ & Ho & _).
        intros c r Hcr. rewrite H1 in Hcr.
        destruct (items (rx_fifo s)) as [|c0 r0] eqn:Ei.
        * destruct (hdlc_rxstart s) eqn:Es; [now specialize (Hst eq_refl)|].
          destruct (Ho eq_refl) as [-> | ->]; cbn in Hcr;
            [discriminate | congruence].
        * cbn in Hcr. injection Hcr as <- _. exact (Hhd c0 r0 eq_refl). }
  destruct (items (rx_fifo (rx_run cfg samples (rx_init cfg))))
    as [|c r] eqn:E; [exact I|].
  apply (Hinv samples (rx_init cfg)) with (r := r); [| |exact E].
  - cbn. discriminate.
  - cbn. discriminate.
Qed.

(** ** Flag and abort patterns *)

Lemma hdlc_parse_demod bit s :
  demod_bits (hdlc_parse bit s) = demod_shift (demod_bits s) bit.
Proof.
  unfold hdlc_parse, demod_shift. repeat break_if; reflexivity.
Qed.

Lemma hdlc_run_demod bits : forall s,
  demod_bits (hdlc_run bits s) = fold_left demod_shift bits (demod_bits s).
Proof.
  induction bits as [|b r IH]; intros s; [reflexivity|].
  rewrite hdlc_run_cons.
  rewrite IH, hdlc_parse_demod. reflexivity.
Qed.

(** The shift depends on the 8 bits of the register only, and keeps it in
    8 bits. *)
Lemma demod_shift_u8 d bit : demod_shift d bit = demod_shift (u8 d) bit.
Proof.
  unfold demod_shift, u8. rewrite !Z.shiftl_mul_pow2 by lia.
  now rewrite Z.mul_mod_idemp_l by lia.
Qed.

Lemma fold_demod_shift_u8 bits d :
  bits <> [] ->
  fold_left demod_shift bits d = fold_left demod_shift bits (u8 d).
Proof.
  destruct bits as [|b r]; [contradiction|]. intros _. cbn.
  now rewrite demod_shift_u8.
Qed.

(** A property of what a given run of bits leaves in the register, checked
    for the 256 values of the register. *)
Lemma demod_after (bits : list bool) (P : Z -> bool) (d : Z) :
  bits <> [] ->
  forallb (fun e => P (fold_left demod_shift bits e))
          (map Z.of_nat (seq 0 256)) = true ->
  P (fold_left demod_shift bits d) = true.
Proof.
  intros Hne Hall. rewrite fold_demod_shift_u8 by exact Hne.
  apply (forallb_below (fun e => P (fold_left demod_shift bits e)) 256 Hall).
  apply u8_range.
Qed.


(** The bit that completes a run of seven ones. *)
Lemma hdlc_parse_abort bit s :
  demod_shift (demod_bits s) bit <> HDLC_FLAG ->
  Z.land (demod_shift (demod_bits s) bit) HDLC_RESET = HDLC_RESET ->
  hdlc_rxstart (hdlc_parse bit s) = false /\
  rx_fifo (hdlc_parse bit s) = rx_fifo s.
Proof.
  unfold demod_shift. intros Hnf Hr.
  destruct s as [dly q x0 x1 y0 y1 sb fb db ph start cc idx].
  unfold hdlc_parse. cbn [demod_bits set_demod_bits] in *.
  apply Z.eqb_neq in Hnf. rewrite Hnf, Hr.
  change (HDLC_RESET =? HDLC_RESET) with true. cbv iota.
  split; reflexivity.
Qed.

(** X4. Seven ones in a row close the frame, whatever the deframer was doing. *)
Theorem seven_ones_close_frame (s : Rx) :
  hdlc_rxstart (hdlc_run (repeat true 7) s) = false.
Proof.
  pose (P := fun d => (Z.land d HDLC_RESET =? HDLC_RESET)
                      && negb (d =? HDLC_FLAG)).
  assert (H : P (fold_left demod_shift (repeat true 7) (demod_bits s)) = true).
  { apply demod_after; [discriminate | vm_compute; reflexivity]. }
  change (repeat true 7) with (repeat true 6 ++ [true]) in H |- *.
  rewrite fold_left_snoc, <- hdlc_run_demod in H.
  rewrite hdlc_run_snoc.
  subst P. cbv beta in H. apply andb_true_iff in H. destruct H as [Hr Hf].
  apply Z.eqb_eq in Hr. apply negb_true_iff, Z.eqb_neq in Hf.
  exact (proj1 (hdlc_parse_abort true _ Hf Hr)).
Qed.


(** ** The delay line of the discriminator *)

Lemma s8_u8 x : s8 (u8 x) = s8 x.
Proof. unfold s8, u8. now rewrite Z.add_mod_idemp_l by lia. Qed.

(** One ADC tick pops the oldest sample of the delay line, multiplies it
    with the new one, and queues the new one. *)
Lemma adc_isr_delay cfg s a :
  items (delay_fifo (adc_isr cfg s a))
    = tl (items (delay_fifo s)) ++ [u8 (s8 a)] /\
  iir_x1 (adc_isr cfg s a)
    = s16 (Z.shiftr (s8 (hd 0 (items (delay_fifo s))) * s8 a) 2).
Proof.
  unfold adc_isr, adc_demod.
  assert (Hf : items (delay_fifo (adc_filter cfg a s))
                 = tl (items (delay_fifo s)) ++ [u8 (s8 a)] /\
               iir_x1 (adc_filter cfg a s)
                 = s16 (Z.shiftr (s8 (hd 0 (items (delay_fifo s))) * s8 a) 2)).
  { unfold adc_filter, fifo_pop, fifo_push.
    destruct (CONFIG_AFSK_FILTER cfg); split; reflexivity. }
  revert Hf. generalize (adc_filter cfg a s). intros f [Hf1 Hf2].
  assert (Hs : delay_fifo (adc_sync f) = delay_fifo f /\
               iir_x1 (adc_sync f) = iir_x1 f).
  { unfold adc_sync. repeat break_if; split; reflexivity. }
  revert Hs. generalize (adc_sync f). intros g [Hs1 Hs2].
  assert (Hg : delay_fifo (fst (adc_sample g)) = delay_fifo g /\
               iir_x1 (fst (adc_sample g)) = iir_x1 g).
  { unfold adc_sample. repeat break_if; split; reflexivity. }
  destruct (adc_sample g) as [h [bit|]]; cbn [fst] in Hg;
    destruct Hg as [Hg1 Hg2].
  - assert (Hp : delay_fifo (hdlc_parse bit h) = delay_fifo h /\
                 iir_x1 (hdlc_parse bit h) = iir_x1 h).
    { unfold hdlc_parse. repeat break_if; split; reflexivity. }
    destruct Hp as [Hp1 Hp2]. split; congruence.
  - split; congruence.
Qed.

Lemma skipn_delay {A : Type} (f : Z -> A) (l : list Z) : forall q : list A,
  q <> [] ->
  forall a,
    skipn (length l) ((tl q ++ [f a]) ++ map f l)
    = skipn (S (length l)) (q ++ map f (a :: l)).
Proof.
  intros q Hq a. destruct q as [|x q]; [contradiction|].
  cbn. now rewrite <- app_assoc.
Qed.

Lemma delay_line_run cfg : forall samples s,
  items (delay_fifo s) <> [] ->
  items (delay_fifo (rx_run cfg samples s))
    = skipn (length samples)
        (items (delay_fifo s) ++ map (fun x => u8 (s8 x)) samples).
Proof.
  induction samples as [|a l IH]; intros s Hne.
  - cbn. now rewrite app_nil_r.
  - rewrite rx_run_cons.
    destruct (adc_isr_delay cfg s a) as [Hd _].
    rewrite IH, Hd.
    + apply (skipn_delay (fun x => u8 (s8 x))). exact Hne.
    + rewrite Hd. destruct (tl (items (delay_fifo s))); discriminate.
Qed.

(** X6. The delay line always holds the last SAMPLEPERBIT / 2 samples (zeros
    before the first ones), so the discriminator multiplies each sample
    with the sample taken half a bit earlier. *)
Theorem delay_line_half_bit (cfg : Config) (samples : list Z) (a : Z) :
  let s := rx_run cfg samples (rx_init cfg) in
  let line := repeat 0 4 ++ map s8 samples in
  map s8 (items (delay_fifo s)) = skipn (length samples) line /\
  length (items (delay_fifo s)) = Z.to_nat (SAMPLEPERBIT / 2) /\
  iir_x1 (adc_isr cfg s a)
    = s16 (Z.shiftr (nth (length samples) line 0 * s8 a) 2).
Proof.
  intros s line.
  assert (Hq : items (delay_fifo s)
               = skipn (length samples)
                   (repeat 0 4 ++ map (fun x => u8 (s8 x)) samples)).
  { unfold s. rewrite delay_line_run by (cbn; discriminate). reflexivity. }
  assert (Hm : map s8 (items (delay_fifo s)) = skipn (length samples) line).
  { rewrite Hq, <- skipn_map, map_app, map_map. unfold line.
    f_equal. f_equal. apply map_ext. intros x.
    rewrite s8_u8. unfold s8.
    rewrite Z.sub_add, Z.mod_mod by lia. reflexivity. }
  split; [exact Hm|]. split.
  - rewrite Hq, length_skipn, length_app, length_map, repeat_length.
    change (Z.to_nat (SAMPLEPERBIT / 2)) with 4%nat. lia.
  - destruct (adc_isr_delay cfg s a) as [_ Hx]. rewrite Hx.
    do 3 f_equal.
    assert (Hh : s8 (hd 0 (items (delay_fifo s)))
                 = hd 0 (map s8 (items (delay_fifo s)))).
    { destruct (items (delay_fifo s)); reflexivity. }
    rewrite Hh, Hm.
    assert (Hlen : (length samples < length line)%nat).
    { unfold line. rewrite length_app, length_map, repeat_length. lia. }
    revert Hlen. generalize line (length samples). clear.
    intros l n. revert l. induction n as [|n IH]; intros l Hl.
    + destruct l; [cbn in Hl; lia | reflexivity].
    + destruct l as [|x l]; [cbn in Hl; lia|]. cbn. apply IH.
      cbn in Hl. lia.
Qed.

(** ** The read endpoint *)

Lemma wait_nonempty_result fuel : forall w w',
  wait_nonempty fuel w = Some w' ->
  fifo_isempty (w_rx w') = false /\
  exists a, items (w_rx w') = items (w_rx w) ++ a /\
            ((forall n, snd (w_future w n) = None) -> a = []) /\
            w_future w' = w_future w.
Proof.
  induction fuel as [|fuel IH]; intros w w' H; [discriminate|].
  cbn in H. destruct (fifo_isempty (w_rx w)) eqn:E.
  - destruct (IH _ _ H) as (Hne & a & Ha & Hq & Hf).
    split; [exact Hne|].
    unfold fifo_isempty in E.
    destruct (items (w_rx w)) eqn:Ei; [|discriminate].
    exists (items (w_rx w')). split; [reflexivity|]. split.
    + intros Hsilent.
      assert (He : fifo_isempty (w_rx w) = true)
        by (unfold fifo_isempty; now rewrite Ei).
      rewrite (wait_nonempty_silent fuel _
                 (proj1 (world_tick_silent w He Hsilent))
                 (proj2 (world_tick_silent w He Hsilent))) in H.
      discriminate.
    + rewrite Hf. unfold world_tick.
      destruct (w_future w (w_now w)). reflexivity.
  - injection H as <-. split; [exact E|].
    exists []. rewrite app_nil_r. repeat split; reflexivity.
Qed.

Lemma world_tick_queue w :
  exists a, items (w_rx (world_tick w)) = items (w_rx w) ++ a /\
            ((forall n, snd (w_future w n) = None) -> a = []) /\
            w_future (world_tick w) = w_future w.
Proof.
  unfold world_tick.
  destruct (w_future w (w_now w)) as [dt arrival] eqn:E. cbn.
  destruct arrival as [c|].
  - destruct (fifo_isfull (w_rx w)).
    + exists []. rewrite app_nil_r. repeat split; reflexivity.
    + exists [u8 c]. split; [reflexivity|]. split; [|reflexivity].
      intros Hs. specialize (Hs (w_now w)). rewrite E in Hs. discriminate.
  - exists []. rewrite app_nil_r. repeat split; reflexivity.
Qed.

(** X7. Whatever the configuration, a read that returns has stored at most
    [size] octets, and they are the head of the RX queue followed by what
    arrived meanwhile: the octets come out in the order they went in, and
    what was not read is still queued.  On a line where nothing arrives,
    what is read is a prefix of the queue. *)
Theorem afsk_read_takes_queue_head
  (cfg : Config) (fuel size : nat) (buf : list Z) (w : World)
  (buf' : list Z) (w' : World) :
  afsk_read cfg fuel size buf w = Some (buf', w') ->
  exists l a,
    buf' = buf ++ l /\
    (length l <= size)%nat /\
    l ++ items (w_rx w') = items (w_rx w) ++ a /\
    ((forall n, snd (w_future w n) = None) -> a = []).
Proof.
  revert buf w. induction size as [|size IH]; intros buf w H.
  - cbn in H. injection H as <- <-.
    exists [], []. rewrite !app_nil_r. repeat split; auto.
  - cbn [afsk_read] in H.
    destruct ((CONFIG_AFSK_RXTIMEOUT cfg =? 0) && fifo_isempty (w_rx w)).
    { injection H as <- <-.
      exists [], []. rewrite !app_nil_r. repeat split; auto. cbn; lia. }
    destruct (wait_nonempty fuel w) as [w1|] eqn:Ew; [|discriminate].
    destruct (wait_nonempty_result fuel w w1 Ew) as (Hne & a1 & Ha1 & Hq1 & Hf1).
    destruct (world_tick_queue w1) as (a2 & Ha2 & Hq2 & Hf2).
    unfold cpu_relax in H.
    destruct (negb (CONFIG_AFSK_RXTIMEOUT cfg =? -1)
              && (timer_clock (world_tick w1) - timer_clock w
                  >? ms_to_ticks (CONFIG_AFSK_RXTIMEOUT cfg))).
    { injection H as <- <-.
      exists [], (a1 ++ a2). rewrite app_nil_r. cbn [app].
      split; [reflexivity|]. split; [cbn; lia|]. split.
      - rewrite Ha2, Ha1. now rewrite app_assoc.
      - intros Hs. rewrite (Hq1 Hs).
        rewrite Hq2; [reflexivity|]. now rewrite Hf1. }
    unfold fifo_pop in H.
    apply IH in H. destruct H as (l & a3 & Hb & Hl & Hi & Hq3).
    cbn [w_rx set_w_rx items w_future] in Hi, Hq3.
    assert (Hcons : exists c r, items (w_rx (world_tick w1)) = c :: r).
    { rewrite Ha2. unfold fifo_isempty in Hne.
      destruct (items (w_rx w1)) as [|c r]; [discriminate|].
      exists c, (r ++ a2). reflexivity. }
    destruct Hcons as (c & r & Hcr). rewrite Hcr in Hb, Hi. cbn [hd tl] in *.
    exists (c :: l), (a1 ++ a2 ++ a3).
    split; [rewrite Hb, <- app_assoc; reflexivity|].
    split; [cbn; lia|]. split.
    + cbn [app]. rewrite Hi.
      change (c :: r ++ a3) with ((c :: r) ++ a3).
      rewrite <- Hcr, Ha2, Ha1. now rewrite !app_assoc.
    + intros Hs. rewrite (Hq1 Hs).
      assert (Hs1 : forall n, snd (w_future w1 n) = None)
        by (now rewrite Hf1).
      rewrite (Hq2 Hs1). rewrite Hq3; [reflexivity|].
      rewrite Hf2. exact Hs1.
Qed.

Lemma afsk_read_takes_queue_head_witness :
  exists buf' w',
    afsk_read cfg_short 5 1 [] (world_with_arrival 2) = Some (buf', w') /\
    exists l a,
      buf' = [] ++ l /\
      (length l <= 1)%nat /\
      l ++ items (w_rx w') = items (w_rx (world_with_arrival 2)) ++ a /\
      ((forall n, snd (w_future (world_with_arrival 2) n) = None) -> a = []).
Proof.
  destruct (afsk_read cfg_short 5 1 [] (world_with_arrival 2))
    as [[buf' w']|] eqn:E; [|vm_compute in E; discriminate].
  exists buf', w'. split; [reflexivity|].
  exact (afsk_read_takes_queue_head cfg_short 5 1 [] (world_with_arrival 2)
           buf' w' E).
Defined.

Lemma wait_nonempty_ready fuel w :
  fifo_isempty (w_rx w) = false -> wait_nonempty (S fuel) w = Some w.
Proof. intros H. cbn. now rewrite H. Qed.

Lemma world_tick_now w : w_now (world_tick w) = S (w_now w).
Proof. unfold world_tick. now destruct (w_future w (w_now w)). Qed.

(** X8. With CONFIG_AFSK_RXTIMEOUT = 0 a read never waits for the line: it
    returns whatever the RX queue and the timer do, and a call for [size]
    octets lets at most [size] slices of time pass, one per octet that it
    found in the queue. *)
Theorem afsk_read_nonblocking
  (cfg : Config) (fuel size : nat) (buf : list Z) (w : World) :
  CONFIG_AFSK_RXTIMEOUT cfg = 0 ->
  exists buf' w',
    afsk_read cfg (S fuel) size buf w = Some (buf', w') /\
    (w_now w' <= w_now w + size)%nat.
Proof.
  intros H0. revert buf w. induction size as [|size IH]; intros buf w.
  - exists buf, w. split; [reflexivity | lia].
  - cbn [afsk_read]. rewrite H0. cbn [Z.eqb andb negb].
    destruct (fifo_isempty (w_rx w)) eqn:E.
    + exists buf, w. split; [reflexivity | lia].
    + rewrite (wait_nonempty_ready fuel w E). unfold cpu_relax.
      destruct (timer_clock (world_tick w) - timer_clock w >? ms_to_ticks 0).
      * exists buf, (world_tick w). split; [reflexivity|].
        rewrite world_tick_now. lia.
      * destruct (fifo_pop (w_rx (world_tick w))) as [c f].
        destruct (IH (buf ++ [c]) (set_w_rx f (world_tick w)))
          as (buf' & w' & Hr & Hn).
        exists buf', w'. split; [exact Hr|].
        cbn [w_now set_w_rx] in Hn. rewrite world_tick_now in Hn. lia.
Qed.

Lemma afsk_read_nonblocking_witness :
  exists buf' w',
    afsk_read cfg_nonblocking 1 3 [] (world_with_arrival 0)
      = Some (buf', w') /\
    (w_now w' <= w_now (world_with_arrival 0) + 3)%nat.
Proof.
  apply (afsk_read_nonblocking cfg_nonblocking 0 3 [] (world_with_arrival 0)).
  reflexivity.
Defined.

(** X9. With CONFIG_AFSK_RXTIMEOUT = -1 a read that returns has stored exactly
    [size] octets: it never returns short. *)
Theorem afsk_read_blocking_fills
  (cfg : Config) (fuel size : nat) (buf : list Z) (w : World)
  (buf' : list Z) (w' : World) :
  CONFIG_AFSK_RXTIMEOUT cfg = -1 ->
  afsk_read cfg fuel size buf w = Some (buf', w') ->
  length buf' = (length buf + size)%nat.
Proof.
  intros H1. revert buf w. induction size as [|size IH]; intros buf w H.
  - cbn in H. injection H as <- <-. lia.
  - cbn [afsk_read] in H. rewrite H1 in H. cbn [Z.eqb andb negb] in H.
    destruct (wait_nonempty fuel w) as [w1|]; [|discriminate].
    destruct (fifo_pop (w_rx (cpu_relax w1))) as [c f].
    apply IH in H. rewrite length_app in H. cbn [length] in H. lia.
Qed.

Lemma afsk_read_blocking_fills_witness :
  exists buf' w',
    afsk_read cfg_blocking 5 1 [] (world_with_arrival 2) = Some (buf', w') /\
    length buf' = 1%nat.
Proof.
  destruct (afsk_read cfg_blocking 5 1 [] (world_with_arrival 2))
    as [[buf' w']|] eqn:E; [|vm_compute in E; discriminate].
  exists buf', w'. split; [reflexivity|].
  exact (afsk_read_blocking_fills cfg_blocking 5 1 [] (world_with_arrival 2)
           buf' w' eq_refl E).
Defined.

(** ** The bit clock of the receiver *)

(** One tick of the ADC handler moves the phase of the bit clock, and
    samples a bit, as [pll_step] says. *)
Lemma adc_demod_pll cfg a s :
  rx_inv s ->
  exists edge,
    pll_step edge (curr_phase s)
    = (curr_phase (adc_isr cfg s a),
       match snd (adc_demod cfg a s) with Some _ => true | None => false end).
Proof.
  unfold rx_inv. intros Hp.
  assert (Hi : curr_phase (adc_isr cfg s a)
               = curr_phase (fst (adc_demod cfg a s))).
  { unfold adc_isr. destruct (adc_demod cfg a s) as [r [bit|]]; cbn [fst];
      [apply hdlc_parse_curr_phase | reflexivity]. }
  rewrite Hi. unfold adc_demod.
  rewrite <- (adc_filter_curr_phase cfg a s) in Hp |- *.
  revert Hp. generalize (adc_filter cfg a s). intros f Hp.
  exists (negb (EDGE_FOUND (sampled_bits f) =? 0)).
  unfold pll_step, adc_sync, adc_sample.
  change PHASE_THRES with 32 in *. change PHASE_MAX with 64 in *.
  change PHASE_INC with 1. change PHASE_BIT with 8.
  destruct (negb (EDGE_FOUND (sampled_bits f) =? 0));
    [destruct (curr_phase f <? 32) eqn:E;
       [apply Z.ltb_lt in E | apply Z.ltb_ge in E]|];
    rx_simpl;
    rewrite ?(s8_small (curr_phase f + 1)), ?(s8_small (curr_phase f - 1))
      by lia;
    rewrite s8_small by lia;
    match goal with
    | |- context [?p >=? 64] =>
        destruct (p >=? 64) eqn:G; [|reflexivity];
        rewrite Z.geb_leb in G; apply Z.leb_le in G;
        pose proof (Z.rem_bound_pos p 64 ltac:(lia) ltac:(lia));
        cbv zeta; rx_simpl;
        assert (Hc : s8 (Z.rem p 64) = Z.rem p 64) by (apply s8_small; lia)
    end;
    break_if; rx_simpl; rewrite Hc; reflexivity.
Qed.

Lemma bits_delivered_pll cfg : forall samples s,
  rx_inv s ->
  exists edges,
    length edges = length samples /\
    bits_delivered cfg samples s = pll_count edges (curr_phase s).
Proof.
  induction samples as [|a l IH]; intros s Hs.
  - exists []. split; reflexivity.
  - destruct (adc_demod_pll cfg a s Hs) as (e & He).
    destruct (IH (adc_isr cfg s a) (rx_inv_step cfg s a Hs))
      as (edges & Hl & Hc).
    exists (e :: edges). split; [cbn; now rewrite Hl|].
    cbn [bits_delivered pll_count]. rewrite He. cbn [fst snd].
    rewrite Hc. now destruct (snd (adc_demod cfg a s)).
Qed.

Lemma all_edges_complete : forall l : list bool, In l (all_edges (length l)).
Proof.
  induction l as [|b l IH]; [now left|].
  cbn [length all_edges]. apply in_or_app.
  destruct b; [left | right]; now apply in_map.
Qed.

(** Checked for the 64 phases and all the edge patterns: nine ticks always
    sample a bit, and seven or fewer never sample two. *)
Lemma pll_window (edges : list bool) (p : Z) :
  0 <= p < PHASE_MAX ->
  (length edges = 9%nat -> (1 <= pll_count edges p)%nat) /\
  ((length edges <= 7)%nat -> (pll_count edges p <= 1)%nat).
Proof.
  intros Hp.
  pose (lo := fun p => forallb (fun e => Nat.leb 1 (pll_count e p))
                         (all_edges 9)).
  pose (hi := fun p =>
          forallb (fun n => forallb (fun e => Nat.leb (pll_count e p) 1)
                              (all_edges n))
            (seq 0 8)).
  assert (Hlo : forallb lo (map Z.of_nat (seq 0 64)) = true)
    by (vm_compute; reflexivity).
  assert (Hhi : forallb hi (map Z.of_nat (seq 0 64)) = true)
    by (vm_compute; reflexivity).
  pose proof (forallb_below lo 64 Hlo p Hp) as Hl.
  pose proof (forallb_below hi 64 Hhi p Hp) as Hh.
  unfold lo in Hl. unfold hi in Hh.
  rewrite forallb_forall in Hl, Hh.
  split.
  - intros Hn. apply Nat.leb_le, Hl. rewrite <- Hn. apply all_edges_complete.
  - intros Hn.
    specialize (Hh (length edges)). rewrite forallb_forall in Hh.
    apply Nat.leb_le, Hh.
    + apply in_seq. lia.
    + apply all_edges_complete.
Qed.

Lemma bits_delivered_app cfg : forall l1 l2 s,
  bits_delivered cfg (l1 ++ l2) s
  = (bits_delivered cfg l1 s + bits_delivered cfg l2 (rx_run cfg l1 s))%nat.
Proof.
  induction l1 as [|a l1 IH]; intros l2 s; [reflexivity|].
  rewrite rx_run_cons. cbn [app bits_delivered]. rewrite IH. lia.
Qed.

Lemma rx_inv_run_from cfg samples s : rx_inv s -> rx_inv (rx_run cfg samples s).
Proof.
  unfold rx_run. apply fold_left_invariant. intros a b. apply rx_inv_step.
Qed.

Lemma bits_delivered_window cfg samples s :
  rx_inv s ->
  (length samples = 9%nat -> (1 <= bits_delivered cfg samples s)%nat) /\
  ((length samples <= 7)%nat -> (bits_delivered cfg samples s <= 1)%nat).
Proof.
  intros Hs.
  destruct (bits_delivered_pll cfg samples s Hs) as (edges & Hl & Hc).
  rewrite Hc, <- Hl. apply pll_window. exact Hs.
Qed.

(** X10. The bit clock of the receiver runs within one sample per bit of its
    nominal rate of one bit every SAMPLEPERBIT = 8 samples, whatever is
    received: from a state whose phase is in range, [n] samples hand at
    least [n / 9] (rounded down) and at most [n / 7] (rounded up) bits to
    the deframer. *)
Theorem bit_clock_rate (cfg : Config) (samples : list Z) (s : Rx) :
  rx_inv s ->
  (length samples / 9 <= bits_delivered cfg samples s
   <= (length samples + 6) / 7)%nat.
Proof.
  remember (length samples) as n eqn:Hn.
  revert samples s Hn.
  induction n as [n IH] using lt_wf_ind. intros samples s Hn Hs.
  split.
  - destruct (Nat.lt_ge_cases n 9) as [Hlt | Hge].
    + rewrite Nat.div_small by exact Hlt. lia.
    + rewrite <- (firstn_skipn 9 samples), bits_delivered_app.
      assert (H9 : length (firstn 9 samples) = 9%nat)
        by (rewrite length_firstn; lia).
      pose proof (proj1 (bits_delivered_window cfg _ s Hs) H9) as H1.
      assert (Hr : length (skipn 9 samples) = (n - 9)%nat)
        by (rewrite length_skipn; lia).
      pose proof (proj1 (IH (n - 9)%nat ltac:(lia) (skipn 9 samples)
                           (rx_run cfg (firstn 9 samples) s)
                           (eq_sym Hr) (rx_inv_run_from cfg _ s Hs))) as H2.
      replace n with (n - 9 + 1 * 9)%nat at 1 by lia.
      rewrite Nat.div_add by lia. lia.
  - destruct (Nat.le_gt_cases n 7) as [Hle | Hgt].
    + pose proof (proj2 (bits_delivered_window cfg samples s Hs)
                    ltac:(lia)) as H1.
      destruct samples as [|a l]; [cbn; lia|].
      cbn [length] in Hn.
      assert (1 <= (n + 6) / 7)%nat; [|lia].
      replace (n + 6)%nat with (n - 1 + 1 * 7)%nat by lia.
      rewrite Nat.div_add by lia. lia.
    + rewrite <- (firstn_skipn 7 samples), bits_delivered_app.
      assert (H7 : (length (firstn 7 samples) <= 7)%nat)
        by (rewrite length_firstn; lia).
      pose proof (proj2 (bits_delivered_window cfg _ s Hs) H7) as H1.
      assert (Hr : length (skipn 7 samples) = (n - 7)%nat)
        by (rewrite length_skipn; lia).
      pose proof (proj2 (IH (n - 7)%nat ltac:(lia) (skipn 7 samples)
                           (rx_run cfg (firstn 7 samples) s)
                           (eq_sym Hr) (rx_inv_run_from cfg _ s Hs))) as H2.
      replace (n + 6)%nat with (n - 7 + 6 + 1 * 7)%nat by lia.
      rewrite Nat.div_add by lia. lia.
Qed.

Lemma bit_clock_rate_witness :
  rx_inv (rx_init cfg_short) /\
  (length (repeat 0%Z 20) / 9
   <= bits_delivered cfg_short (repeat 0%Z 20) (rx_init cfg_short)
   <= (length (repeat 0%Z 20) + 6) / 7)%nat.
Proof.
  assert (H : rx_inv (rx_init cfg_short))
    by (unfold rx_inv; vm_compute; split; [discriminate | reflexivity]).
  split; [exact H|].
  exact (bit_clock_rate cfg_short (repeat 0 20) (rx_init cfg_short) H).
Defined.

(** ** The transmitter left to the DAC interrupt *)

(** Linear arithmetic with divisions by a constant. *)
Ltac div_lia := Z.to_euclidean_division_equations; lia.

Lemma tx_ok_init cfg : tx_ok (tx_init cfg).
Proof. unfold tx_ok, tx_init. cbn. repeat split; lia. Qed.

(** The oscillator step on a state whose sample counter has just been
    set. *)
Lemma dac_dds_keeps n b :
  exists s' v,
    dac_dds (set_sample_count n b) = Some (s', Sample v) /\
    curr_out s' = curr_out b /\ tx_bit s' = tx_bit b /\
    bit_stuff s' = bit_stuff b /\ stuff_cnt s' = stuff_cnt b /\
    phase_inc s' = phase_inc b /\ tx_fifo s' = tx_fifo b /\
    preamble_len s' = preamble_len b /\ trailer_len s' = trailer_len b /\
    sending s' = sending b /\ dac_irq s' = dac_irq b /\
    sample_count s' = u8 (n - 1).
Proof.
  destruct (dac_dds_frame (set_sample_count n b)) as (s' & v & Hd & H).
  exists s', v. split; [exact Hd|]. cbn in H. exact H.
Qed.

Lemma mask_index_range m : is_mask m -> 0 <= mask_index m <= 8.
Proof.
  unfold is_mask, mask_index. intros H.
  repeat destruct H as [H | H]; subst m; cbn; lia.
Qed.

Lemma bits_to_go_range cfg s : tx_wf cfg s -> 0 <= bits_to_go s <= 10.
Proof.
  unfold tx_wf, bits_to_go.
  destruct s as [sc co tb bs cnt acc inc q pl tl snd irq].
  cbn -[Z.div Z.add Z.sub].
  intros (_ & Hm & Hc & Hb).
  unfold BIT_STUFF_LEN, mask_index, is_mask in *.
  repeat destruct Hm as [Hm | Hm]; subst tb; cbn -[Z.div Z.add Z.sub] in Hc |- *;
    try lia;
    (destruct bs; [specialize (Hb eq_refl)|]; div_lia).
Qed.

(** The mask of the next bit, computed. *)
Ltac shift_mask :=
  repeat match goal with
         | |- context [u8 (Z.shiftl ?m 1)] =>
             let v := eval vm_compute in (u8 (Z.shiftl m 1)) in
             change (u8 (Z.shiftl m 1)) with v
         end.

(** Each bit period brings the end of the octet nearer. *)
Lemma dac_bit_measure cfg s :
  tx_wf cfg s -> tx_bit s <> 0 ->
  bits_to_go (dac_bit cfg s) <= bits_to_go s - 1.
Proof.
  unfold tx_wf, dac_bit, bits_to_go.
  destruct s as [sc co tb bs cnt acc inc q pl tl snd irq].
  cbn -[Z.div Z.add Z.sub Z.shiftl u8].
  intros (_ & Hm & Hc & Hb) Hnz.
  unfold BIT_STUFF_LEN, mask_index, is_mask in *.
  destruct Hm as [Hm | Hm]; [contradiction|].
  repeat destruct Hm as [Hm | Hm]; subst tb;
    cbn -[Z.div Z.add Z.sub Z.shiftl u8] in Hc |- *;
    (destruct bs; cbn -[Z.div Z.add Z.sub Z.shiftl u8];
     [ specialize (Hb eq_refl);
       destruct (cnt >=? 5) eqn:E; cbn -[Z.div Z.add Z.sub Z.shiftl u8];
       rewrite Z.geb_leb in E;
       [ apply Z.leb_le in E; div_lia | apply Z.leb_gt in E ]
     | ];
     (destruct (Z.land co _ =? 0); cbn -[Z.div Z.add Z.sub Z.shiftl u8];
      shift_mask; cbn -[Z.div Z.add Z.sub u8];
      rewrite ?(u8_small (cnt + 1)) by lia; div_lia)).
Qed.

Ltac solve_popped :=
  first [ exists []; reflexivity
        | eexists [_]; reflexivity
        | eexists [_; _]; reflexivity ].

(** The fetch of a new octet either ends the transmission, the queue
    being empty, or takes at least one octet off what is left to send. *)
Lemma dac_fetch_measure s :
  tx_ok s -> sending s = true ->
  match dac_fetch s with
  | Return r =>
      sending r = false /\ dac_irq r = false /\
      items (tx_fifo r) = [] /\
      sample_count r = sample_count s /\ tx_bit r = tx_bit s /\
      preamble_len r = preamble_len s /\ trailer_len r = trailer_len s /\
      capacity (tx_fifo r) = capacity (tx_fifo s) /\
      (exists l, items (tx_fifo s) = l ++ items (tx_fifo r))
  | Continue t =>
      sending t = true /\ dac_irq t = true /\
      sample_count t = sample_count s /\ tx_bit t = 1 /\
      0 <= preamble_len t < 65536 /\ 0 <= trailer_len t < 65536 /\
      octets_to_go t <= octets_to_go s - 1 /\
      capacity (tx_fifo t) = capacity (tx_fifo s) /\
      (exists l, items (tx_fifo s) = l ++ items (tx_fifo t)) /\
      preamble_len t <= preamble_len s /\ trailer_len t <= trailer_len s
  end.
Proof.
  unfold tx_ok, octets_to_go.
  destruct s as [sc co tb bs cnt acc inc [q cap] pl tl snd irq].
  cbn -[Z.add Z.sub Z.of_nat].
  intros (Hirq & Hsc & Hpl & Htl) Hsnd. subst snd irq.
  unfold dac_fetch, dac_next_byte, dac_escape, dac_stop, AFSK_DAC_IRQ_STOP,
    fifo_pop, fifo_isempty.
  cbn -[Z.add Z.sub Z.of_nat].
  destruct bs; destruct q as [|c [|c2 rest]];
    cbn -[Z.add Z.sub Z.of_nat];
    repeat (break_if; cbn -[Z.add Z.sub Z.of_nat] in * );
    repeat match goal with
           | H : (_ =? _) = true |- _ => apply Z.eqb_eq in H
           | H : (_ =? _) = false |- _ => apply Z.eqb_neq in H
           end;
    rewrite ?(u16_small (pl - 1)), ?(u16_small (tl - 1)) by lia;
    repeat split; try reflexivity; try solve_popped; try lia;
    try (cbn [length]; lia).
Qed.


(** The bit step and the oscillator step that follows it. *)
Lemma dac_bit_tick cfg t :
  tx_wf cfg t -> tx_bit t <> 0 ->
  exists s' v,
    dac_dds (set_sample_count (u8 (DAC_SAMPLEPERBIT cfg)) (dac_bit cfg t))
      = Some (s', Sample v) /\
    sample_count s' = bit_ticks cfg - 1 /\
    bits_to_go s' <= bits_to_go t - 1 /\
    tx_fifo s' = tx_fifo t /\
    preamble_len s' = preamble_len t /\ trailer_len s' = trailer_len t /\
    sending s' = sending t /\ dac_irq s' = dac_irq t.
Proof.
  intros Hwf Hnz.
  pose proof (dac_bit_measure cfg t Hwf Hnz) as Hm.
  destruct (dac_bit_frame cfg t) as (_ & Bf & _ & Bp & Bt & _ & Bs & Bi).
  destruct (bit_ticks_reload cfg) as [Hreload _].
  revert Hm Bf Bp Bt Bs Bi. generalize (dac_bit cfg t).
  intros b Hm Bf Bp Bt Bs Bi.
  destruct (dac_dds_keeps (u8 (DAC_SAMPLEPERBIT cfg)) b)
    as (s' & v & Hd & _ & Fb & Fbs & Fn & _ & Ff & Fp & Ft & Fs & Fq & Fk).
  exists s', v. split; [exact Hd|].
  split; [now rewrite Fk|].
  split; [unfold bits_to_go in *; now rewrite Fb, Fbs, Fn|].
  rewrite Ff, Fp, Ft, Fs, Fq. repeat split; assumption.
Qed.

(** One DAC tick of a transmission under way: it is one tick nearer to its
    end, or it is the tick that ends it, and then the queue is empty.  The
    handler takes octets from the head of the queue only. *)
Lemma dac_tick_progress cfg s :
  tx_ok s -> tx_wf cfg s -> sending s = true ->
  tx_ok (tx_step cfg s DacTick) /\
  capacity (tx_fifo (tx_step cfg s DacTick)) = capacity (tx_fifo s) /\
  (exists l, items (tx_fifo s) = l ++ items (tx_fifo (tx_step cfg s DacTick))) /\
  ((sending (tx_step cfg s DacTick) = true /\
    ticks_to_idle cfg (tx_step cfg s DacTick) < ticks_to_idle cfg s) \/
   (sending (tx_step cfg s DacTick) = false /\
    items (tx_fifo (tx_step cfg s DacTick)) = [] /\
    ticks_to_idle cfg (tx_step cfg s DacTick) <= ticks_to_idle cfg s)).
Proof.
  intros Hok Hwf Hsnd.
  pose proof Hok as (Hirq & Hsc & Hpl & Htl).
  destruct (bit_ticks_reload cfg) as [_ Hbt].
  pose proof (bits_to_go_range cfg s Hwf) as Hbits.
  unfold tx_step. rewrite Hirq, Hsnd. unfold dac_isr.
  destruct (sample_count s =? 0) eqn:Esc.
  2:{ apply Z.eqb_neq in Esc.
      destruct (dac_dds_frame s)
        as (s' & v & Hd & _ & Fb & Fbs & Fn & _ & Ff & Fp & Ft & Fs & Fq & Fk).
      rewrite Hd.
      unfold tx_ok, ticks_to_idle, bits_to_go, octets_to_go.
      rewrite Fb, Fbs, Fn, Ff, Fp, Ft, Fs, Fq, Fk.
      rewrite (u8_small (sample_count s - 1)) by lia.
      split; [repeat split; try lia; congruence|].
      split; [reflexivity|]. split; [exists []; reflexivity|].
      left. split; [exact Hsnd | lia]. }
  apply Z.eqb_eq in Esc.
  unfold dac_bit_boundary.
  assert (Hstep : forall t,
             tx_wf cfg t -> tx_bit t <> 0 ->
             sending t = true -> dac_irq t = true ->
             0 <= preamble_len t < 65536 -> 0 <= trailer_len t < 65536 ->
             capacity (tx_fifo t) = capacity (tx_fifo s) ->
             (exists l, items (tx_fifo s) = l ++ items (tx_fifo t)) ->
             bit_ticks cfg * bits_to_go t + 10 * bit_ticks cfg * octets_to_go t
               <= ticks_to_idle cfg s ->
             match dac_dds (set_sample_count (u8 (DAC_SAMPLEPERBIT cfg))
                              (dac_bit cfg t)) with
             | Some (s', _) =>
                 tx_ok s' /\
                 capacity (tx_fifo s') = capacity (tx_fifo s) /\
                 (exists l, items (tx_fifo s) = l ++ items (tx_fifo s')) /\
                 ((sending s' = true /\
                   ticks_to_idle cfg s' < ticks_to_idle cfg s) \/
                  (sending s' = false /\ items (tx_fifo s') = [] /\
                   ticks_to_idle cfg s' <= ticks_to_idle cfg s))
             | None => False
             end).
  { intros t Hwt Hnz Ts Ti Tpl Ttl Tcap Tl Tm.
    destruct (dac_bit_tick cfg t Hwt Hnz)
      as (s' & v & Hd & Ksc & Kb & Kf & Kp & Kt & Ks & Ki).
    rewrite Hd.
    split; [unfold tx_ok; rewrite Ksc, Kp, Kt, Ks, Ki;
            repeat split; try lia; congruence|].
    split; [now rewrite Kf|]. split; [now rewrite Kf|].
    left. split; [congruence|].
    assert (Ho : octets_to_go s' = octets_to_go t)
      by (unfold octets_to_go; now rewrite Kf, Kp, Kt).
    unfold ticks_to_idle at 1. rewrite Ksc, Ho.
    assert (bit_ticks cfg * bits_to_go s'
            <= bit_ticks cfg * (bits_to_go t - 1))
      by (apply Z.mul_le_mono_nonneg_l; lia).
    lia. }
  destruct (tx_bit s =? 0) eqn:Etb.
  - apply Z.eqb_eq in Etb.
    pose proof (dac_fetch_measure s Hok Hsnd) as Hf.
    pose proof (tx_wf_fetch cfg s Hwf) as Hwf'.
    assert (Hs0 : ticks_to_idle cfg s = 10 * bit_ticks cfg * octets_to_go s).
    { unfold ticks_to_idle, bits_to_go. rewrite Esc, Etb. cbn [Z.eqb]. lia. }
    destruct (dac_fetch s) as [r|t].
    + destruct Hf as (Rs & Ri & Rq & Rsc & Rb & Rp & Rt & Rcap & Rl).
      split; [unfold tx_ok; rewrite Rs, Ri, Rsc, Rp, Rt;
              repeat split; lia|].
      split; [exact Rcap|]. split; [exact Rl|].
      right. split; [exact Rs|]. split; [exact Rq|].
      rewrite Hs0. unfold ticks_to_idle, bits_to_go, octets_to_go.
      rewrite Rsc, Rb, Rp, Rt, Rq, Esc, Etb. cbn [Z.eqb length].
      assert (0 <= bit_ticks cfg * Z.of_nat (length (items (tx_fifo s))))
        by nia.
      lia.
    + destruct Hf as (Ts & Ti & Tsc & Tb & Tpl & Ttl & To & Tcap & Tl & _).
      destruct Hwf' as [Hwt _].
      pose proof (bits_to_go_range cfg t Hwt) as Hbt'.
      specialize (Hstep t Hwt ltac:(lia) Ts Ti Tpl Ttl Tcap Tl).
      destruct (dac_dds _) as [[s' o]|]; [apply Hstep | exfalso; apply Hstep].
      all: rewrite Hs0;
        assert (bit_ticks cfg * bits_to_go t <= bit_ticks cfg * 10)
          by (apply Z.mul_le_mono_nonneg_l; lia);
        assert (10 * bit_ticks cfg * octets_to_go t
                <= 10 * bit_ticks cfg * (octets_to_go s - 1))
          by (apply Z.mul_le_mono_nonneg_l; lia);
        lia.
  - apply Z.eqb_neq in Etb.
    specialize (Hstep s Hwf Etb Hsnd ltac:(congruence) Hpl Htl eq_refl
                  ltac:(exists []; reflexivity)).
    destruct (dac_dds _) as [[s' o]|]; [apply Hstep | exfalso; apply Hstep].
    all: unfold ticks_to_idle; lia.
Qed.

(** The counters of the preamble and of the trailer only go down under
    the DAC interrupt. *)
Lemma dac_tick_counters cfg s :
  tx_ok s ->
  preamble_len (tx_step cfg s DacTick) <= preamble_len s /\
  trailer_len (tx_step cfg s DacTick) <= trailer_len s.
Proof.
  intros Hok. cbn [tx_step].
  destruct (dac_irq s) eqn:Hirq; [|lia].
  assert (Hsnd : sending s = true)
    by (destruct Hok as [H _]; congruence).
  unfold dac_isr.
  destruct (sample_count s =? 0).
  2:{ destruct (dac_dds_frame s)
        as (s' & v & Hd & _ & _ & _ & _ & _ & _ & Fp & Ft & _).
      rewrite Hd, Fp, Ft. lia. }
  unfold dac_bit_boundary.
  destruct (tx_bit s =? 0).
  - pose proof (dac_fetch_measure s Hok Hsnd) as Hf.
    destruct (dac_fetch s) as [r|t].
    + destruct Hf as (_ & _ & _ & _ & _ & Rp & Rt & _). rewrite Rp, Rt. lia.
    + destruct Hf as (_ & _ & _ & _ & _ & _ & _ & _ & _ & Tp & Tt).
      destruct (dac_dds_after_bit cfg (u8 (DAC_SAMPLEPERBIT cfg)) t)
        as (s' & v & Hd & _ & _ & _ & _ & _ & _ & _ & Hp & Ht & _).
      rewrite Hd, Hp, Ht. lia.
  - destruct (dac_dds_after_bit cfg (u8 (DAC_SAMPLEPERBIT cfg)) s)
      as (s' & v & Hd & _ & _ & _ & _ & _ & _ & _ & Hp & Ht & _).
    rewrite Hd, Hp, Ht. lia.
Qed.

(** ** Invariants of the transmitter and of its queue *)

Lemma fifo_ok_suffix (f g : Fifo) l :
  items f = l ++ items g -> capacity g = capacity f -> fifo_ok f -> fifo_ok g.
Proof.
  unfold fifo_ok. intros Hi Hc. rewrite Hi, Hc, length_app. lia.
Qed.

(** A DAC tick, whether the interrupt is enabled or not. *)
Lemma tx_tick_keeps cfg s :
  tx_ok s -> tx_wf cfg s ->
  tx_ok (tx_step cfg s DacTick) /\
  capacity (tx_fifo (tx_step cfg s DacTick)) = capacity (tx_fifo s) /\
  (exists l, items (tx_fifo s) = l ++ items (tx_fifo (tx_step cfg s DacTick))) /\
  ((fifo_isempty (tx_fifo s) = false -> sending s = true) ->
   fifo_isempty (tx_fifo (tx_step cfg s DacTick)) = false ->
   sending (tx_step cfg s DacTick) = true).
Proof.
  intros Hok Hwf.
  destruct (sending s) eqn:Hsnd.
  - destruct (dac_tick_progress cfg s Hok Hwf Hsnd)
      as (Hok' & Hcap & Hl & [[Hs' _] | (Hs' & He & _)]).
    + split; [exact Hok'|]. split; [exact Hcap|]. split; [exact Hl|].
      intros _ _. exact Hs'.
    + split; [exact Hok'|]. split; [exact Hcap|]. split; [exact Hl|].
      intros _ Hne.
      unfold fifo_isempty in Hne. rewrite He in Hne. discriminate.
  - assert (Hirq : dac_irq s = false)
      by (destruct Hok as [Hirq _]; congruence).
    cbn [tx_step]. rewrite Hirq.
    split; [exact Hok|]. split; [reflexivity|].
    split; [exists []; reflexivity|].
    intros Hlink Hne. specialize (Hlink Hne). discriminate.
Qed.

Lemma tx_ok_step cfg s e :
  tx_ok s -> tx_wf cfg s -> tx_ok (tx_step cfg s e).
Proof.
  intros Hok Hwf. destruct e as [|b| |].
  - apply (tx_tick_keeps cfg s Hok Hwf).
  - cbn [tx_step]. destruct (fifo_isfull (tx_fifo s)); exact Hok.
  - cbn [tx_step]. unfold tx_arm, AFSK_DAC_IRQ_START.
    destruct (sending s) eqn:Hs; cbn [negb]; [exact Hok|].
    destruct Hok as (Hirq & Hsc & Hpl & Htl).
    unfold tx_ok. cbn.
    pose proof (u16_range
                  (DIV_ROUND (CONFIG_AFSK_PREAMBLE_LEN cfg * BITRATE) 8000)).
    repeat split; auto; lia.
  - cbn [tx_step]. unfold tx_trailer.
    destruct Hok as (Hirq & Hsc & Hpl & Htl).
    unfold tx_ok. cbn.
    pose proof (u16_range
                  (DIV_ROUND (CONFIG_AFSK_TRAILER_LEN cfg * BITRATE) 8000)).
    repeat split; auto; lia.
Qed.

Lemma tx_fifo_step cfg s e :
  tx_ok s -> tx_wf cfg s -> fifo_ok (tx_fifo s) ->
  fifo_ok (tx_fifo (tx_step cfg s e)) /\
  capacity (tx_fifo (tx_step cfg s e)) = capacity (tx_fifo s).
Proof.
  intros Hok Hwf Hf. destruct e as [|b| |].
  - destruct (tx_tick_keeps cfg s Hok Hwf) as (_ & Hcap & (l & Hl) & _).
    split; [exact (fifo_ok_suffix _ _ l Hl Hcap Hf) | exact Hcap].
  - cbn [tx_step]. destruct (fifo_isfull (tx_fifo s)) eqn:E; [now split|].
    unfold fifo_isfull in E. apply Nat.leb_gt in E.
    unfold fifo_ok. cbn. rewrite length_app. cbn. split; [lia | reflexivity].
  - cbn [tx_step]. unfold tx_arm, AFSK_DAC_IRQ_START.
    destruct (sending s); cbn; now split.
  - cbn [tx_step]. unfold tx_trailer. cbn. now split.
Qed.

Lemma tx_sane_step cfg s e :
  tx_sane cfg s ->
  tx_sane cfg (tx_step cfg s e) /\
  capacity (tx_fifo (tx_step cfg s e)) = capacity (tx_fifo s).
Proof.
  intros (Hok & Hwf & Hf & Hp & Ht).
  destruct (tx_fifo_step cfg s e Hok Hwf Hf) as [Hf' Hc'].
  split; [|exact Hc'].
  split; [exact (tx_ok_step cfg s e Hok Hwf)|].
  split; [exact (tx_wf_step cfg s e Hwf)|].
  split; [exact Hf'|].
  destruct e as [|b| |].
  - pose proof (dac_tick_counters cfg s Hok). lia.
  - cbn [tx_step]. destruct (fifo_isfull (tx_fifo s)); cbn; lia.
  - cbn [tx_step]. unfold tx_arm, AFSK_DAC_IRQ_START.
    destruct (sending s); cbn; unfold preamble_load in *; lia.
  - cbn [tx_step]. unfold tx_trailer. cbn. unfold trailer_load in *. lia.
Qed.

Lemma tx_sane_init cfg : tx_sane cfg (tx_init cfg).
Proof.
  split; [apply tx_ok_init|]. split; [apply tx_wf_init|].
  split; [unfold fifo_ok; cbn; lia|].
  pose proof (u16_range
                (DIV_ROUND (CONFIG_AFSK_PREAMBLE_LEN cfg * BITRATE) 8000)).
  pose proof (u16_range
                (DIV_ROUND (CONFIG_AFSK_TRAILER_LEN cfg * BITRATE) 8000)).
  unfold preamble_load, trailer_load. cbn. lia.
Qed.

Lemma tx_reach cfg evs :
  let s := tx_run cfg evs (tx_init cfg) in
  tx_sane cfg s /\
  capacity (tx_fifo s) = Nat.pred (CONFIG_AFSK_TX_BUFLEN cfg).
Proof.
  unfold tx_run.
  apply (fold_left_invariant (tx_step cfg)
           (fun s => tx_sane cfg s /\
                     capacity (tx_fifo s)
                     = Nat.pred (CONFIG_AFSK_TX_BUFLEN cfg))).
  - intros s e (Hs & Hc).
    destruct (tx_sane_step cfg s e Hs) as [Hs' Hc'].
    split; [exact Hs' | congruence].
  - split; [apply tx_sane_init | reflexivity].
Qed.

(** X11. However the DAC interrupt and the writer interleave, the TX queue
    never holds more than its capacity, which does not change, and the DAC
    interrupt is enabled exactly while [sending] is set. *)
Theorem tx_queue_never_overflows (cfg : Config) (evs : list TxEvent) :
  let s := tx_run cfg evs (tx_init cfg) in
  (length (items (tx_fifo s)) <= capacity (tx_fifo s))%nat /\
  capacity (tx_fifo s) = Nat.pred (CONFIG_AFSK_TX_BUFLEN cfg) /\
  dac_irq s = sending s.
Proof.
  intros s. destruct (tx_reach cfg evs) as ((Hok & _ & Hf & _) & Hc).
  fold s in Hok, Hf, Hc.
  split; [exact Hf|]. split; [exact Hc|]. apply Hok.
Qed.

(** X12. However the DAC interrupt and the writer interleave: while bit
    stuffing is on the transmitter never counts more than BIT_STUFF_LEN
    ones in a row, so it never sends six; its counter of ones stays far
    from the range of a uint8_t; the mask of the current bit is zero or a
    single bit; and the tone is one of the two tones. *)
Theorem tx_stuffing_bound (cfg : Config) (evs : list TxEvent) :
  let s := tx_run cfg evs (tx_init cfg) in
  (bit_stuff s = true -> stuff_cnt s <= BIT_STUFF_LEN) /\
  0 <= stuff_cnt s <= BIT_STUFF_LEN + 8 /\
  is_mask (tx_bit s) /\
  (phase_inc s = MARK_INC cfg \/ phase_inc s = SPACE_INC cfg).
Proof.
  intros s. destruct (tx_wf_run cfg evs) as (Ht & Hm & Hc & Hb).
  fold s in Ht, Hm, Hc, Hb.
  pose proof (mask_index_range _ Hm).
  split; [exact Hb|]. split; [lia|]. split; [exact Hm | exact Ht].
Qed.

(** ** [afsk_flush] *)




(** ** [afsk_write] *)









